(** * Steady-state residual functors of Torsten ([PKModel/functors/SS_system.hpp])

    The two functors [SS_system_dd] and [SS_system_vd] compute the residual of
    the algebraic system whose root is the steady state of a compartment
    model.  They are embedded here as executable Rocq functions.

    - [double] is IEEE binary64, Rocq's primitive [float];
    - [std::vector] and [Eigen::Matrix<_, Dynamic, 1>] are lists, read with
      [!!] and written with [<[ _ := _ ]>]; an access out of range has no
      defined behaviour in C++ and is the outcome [Undefined] here;
    - the template scalar types are one type [T] with the interface [Scalar];
    - the integrator and the right-hand side [f_] are collaborators: they may
      raise, and they may depend on and change a state of their own (for
      instance an autodiff tape), the [world] of the machine;
    - every invocation of the integrator is appended to the machine's
      [calls], which is what a test double would record;
    - sizes are natural numbers: the [int] counter of the loop over [result]
      is taken not to overflow. *)

From Stdlib Require Import ZArith Floats Lia.
From stdpp Require Import base list strings.

Open Scope Z_scope.

(** ** Scalars *)

(** What the functors ask of the promoted scalar type: [x0[i] += amt] with a
    [double] amount (dd) or a scalar amount (vd), and [x(i) - pred[i]].
    [value_init] is the content of a freshly sized vector. *)
Class Scalar (T : Type) := {
  value_init : T;
  plus : T -> T -> T;
  plus_double : T -> float -> T;
  minus : T -> T -> T
}.

#[export] Instance Scalar_double : Scalar float := {
  value_init := 0%float;
  plus := PrimFloat.add;
  plus_double := PrimFloat.add;
  minus := PrimFloat.sub
}.

(** ** Failures *)

(** The value argument [y] of [stan::math::invalid_argument]: a [double] in
    the dd functor, the empty C string in the vd functor. *)
Inductive arg_value :=
  | arg_double (d : float)
  | arg_text (s : string).

(** A piece of a message assembled with [operator+]: literal text, or a
    [double] printed by [boost::lexical_cast<std::string>]. *)
Inductive msg_part :=
  | msg_text (s : string)
  | msg_lexical_cast (d : float).

(** Modelled from the spec: [stan::math::invalid_argument] belongs to the Stan
    Math library; it always raises [std::invalid_argument], with a message
    made of its five arguments, which are kept here as they were passed. *)
Inductive exn (E : Type) :=
  | invalid_argument (function name : string) (y : arg_value)
                     (msg1 : string) (msg2 : list msg_part)
  | length_error
  | collaborator_error (e : E).
Arguments invalid_argument {E}.
Arguments length_error {E}.
Arguments collaborator_error {E}.

Inductive outcome (E A : Type) :=
  | Returned (a : A)
  | Raised (e : exn E)
  | Undefined.
Arguments Returned {E A}.
Arguments Raised {E A}.
Arguments Undefined {E A}.

Definition is_invalid_argument {E} (e : exn E) : bool :=
  match e with invalid_argument _ _ _ _ _ => true | _ => false end.

Definition returns {E A} (o : outcome E A) : bool :=
  match o with Returned _ => true | _ => false end.

(** [std::ostream*] *)
Definition ostream := unit.

Section Machine.
Context {T W E : Type}.

(** ** Collaborators *)

(** The right-hand side functor [F], called as
    [f_(t, x, parms, rate, dat_int, msgs)]. *)
Definition F : Type :=
  float -> list T -> list T -> list float -> list Z -> option ostream ->
  W -> (E + list T) * W.

(** [integrator_structure], called as
    [integrator_(f, y0, t0, ts, theta, x_r, x_i)]; one state per entry of
    [ts]. *)
Definition integrator_structure : Type :=
  F -> list T -> float -> list float -> list T -> list float -> list Z ->
  W -> (E + list (list T)) * W.

(** One recorded invocation of the integrator. *)
Record integrator_call := {
  call_f : F;
  call_y0 : list T;
  call_t0 : float;
  call_ts : list float;
  call_theta : list T;
  call_x_r : list float;
  call_x_i : list Z
}.

Record machine := {
  calls : list integrator_call;
  world : W
}.

(** ** The evaluation monad: state, failure, undefined behaviour *)

Definition M (A : Type) : Type := machine -> outcome E A * machine.

Definition ret {A} (a : A) : M A := fun m => (Returned a, m).

Definition bind {A B} (c : M A) (k : A -> M B) : M B :=
  fun m =>
    match c m with
    | (Returned a, m') => k a m'
    | (Raised e, m') => (Raised e, m')
    | (Undefined, m') => (Undefined, m')
    end.

Definition throw {A} (e : exn E) : M A := fun m => (Raised e, m).

Definition undefined {A} : M A := fun m => (Undefined, m).

Definition invoke_integrator (integrator : integrator_structure) (f : F)
    (y0 : list T) (t0 : float) (ts : list float) (theta : list T)
    (x_r : list float) (x_i : list Z) : M (list (list T)) :=
  fun m =>
    let c := {| call_f := f; call_y0 := y0; call_t0 := t0; call_ts := ts;
                call_theta := theta; call_x_r := x_r; call_x_i := x_i |} in
    match integrator f y0 t0 ts theta x_r x_i (world m) with
    | (inr states, w) => (Returned states, {| calls := calls m ++ [c]; world := w |})
    | (inl e, w) => (Raised (collaborator_error e), {| calls := calls m ++ [c]; world := w |})
    end.

Definition invoke_rhs (f : F) (t : float) (x parms : list T)
    (rate : list float) (x_i : list Z) (msgs : option ostream) : M (list T) :=
  fun m =>
    match f t x parms rate x_i msgs (world m) with
    | (inr dxdt, w) => (Returned dxdt, {| calls := calls m; world := w |})
    | (inl e, w) => (Raised (collaborator_error e), {| calls := calls m; world := w |})
    end.
End Machine.

Arguments F : clear implicits.
Arguments integrator_structure : clear implicits.
Arguments integrator_call : clear implicits.
Arguments machine : clear implicits.
Arguments M : clear implicits.

Declare Scope eval_scope.
Delimit Scope eval_scope with eval.
Notation "x <- c ;; k" := (bind c (fun x => k))
(at level 100, c at next level, right associativity) : eval_scope.
Open Scope eval_scope.

Section Vectors.
Context {T W E : Type}.

(** [v[i]] with [i] of type [size_t]. *)
Definition at_index {A} (v : list A) (i : nat) : M T W E A :=
  match v !! i with
  | Some a => ret a
  | None => undefined
  end.

(** [v[i] = a] with [i] of type [size_t]. *)
Definition assign {A} (v : list A) (i : nat) (a : A) : M T W E (list A) :=
  if decide (i < length v)%nat then ret (<[i := a]> v) else undefined.

(** An [int] expression used as an index is converted to [size_t]; a
    negative one becomes larger than any size. *)
Definition at_int {A} (v : list A) (i : Z) : M T W E A :=
  if decide (0 <= i) then at_index v (Z.to_nat i) else undefined.

Definition assign_int {A} (v : list A) (i : Z) (a : A) : M T W E (list A) :=
  if decide (0 <= i) then assign v (Z.to_nat i) a else undefined.

(** [std::vector<A> v(dat.size() - 1, a)]: the size is unsigned, so for an
    empty [dat] it wraps to the largest [size_t], beyond [max_size()], and
    the constructor raises [std::length_error]. *)
Definition vector_size_minus_one {A B} (dat : list A) (a : B) : M T W E (list B) :=
  match dat with
  | [] => throw length_error
  | _ :: _ => ret (replicate (length dat - 1) a)
  end.

(** [for (i = i0; i < i0 + count; i++) body] on the loop's state [s]. *)
Fixpoint for_loop {S} (count : nat) (i : nat) (body : nat -> S -> M T W E S) (s : S) : M T W E S :=
  match count with
  | O => ret s
  | Datatypes.S count' => s' <- body i s ;; for_loop count' (Datatypes.S i) body s'
  end.

(** [for (i = 0; i < dst.size(); i++) dst[i] = src[i];] *)
Definition copy_loop {A} (src dst : list A) : M T W E (list A) :=
  for_loop (length dst) 0%nat
    (fun i dst => a <- at_index src i ;; assign dst i a) dst.
End Vectors.

(** [for (int i = 0; i < result.size(); i++) result(i) = x(i) - pred[i];] *)
Definition residual_loop {T W E} `{Scalar T} (x pred result : list T) : M T W E (list T) :=
  for_loop (length result) 0%nat
    (fun i result =>
       xi <- at_index x i ;;
       pi <- at_index pred i ;;
       assign result i (minus xi pi))
    result.

(** ** Dosing regimes *)

(** The three branches of both operators, as their comments name them. *)
Inductive regime :=
  | bolus          (* bolus dose *)
  | truncated      (* multiple truncated infusions *)
  | constant.      (* constant infusion *)

(** The conditions of [if (rate == 0) ... else if (ii_ > 0) ... else ...]. *)
Definition regime_of (rate ii : float) : regime :=
  if (rate =? 0)%float then bolus
  else if (0 <? ii)%float then truncated
  else constant.

(** Integrator invocations made by a branch that runs to its end. *)
Definition invocations (r : regime) : nat :=
  match r with
  | bolus => 1
  | truncated => 2
  | constant => 0
  end.

(** ** [SS_system_dd]: amount and rate are data *)

Module SS_system_dd.
Section Functor.
Context {T W E : Type} `{Scalar T}.

Record t := {
  f_ : F T W E;
  ii_ : float;
  cmt_ : Z;  (* dosing compartment *)
  integrator_ : integrator_structure T W E
}.

(** [if (rate == 0)]: bolus dose. *)
Definition bolus_dose (self : t) (x y : list T) (dat : list float)
    (dat_int : list Z) (t0 : float) (ts : list float) (x0 : list T)
    (amt : float) (result : list T) : M T W E (list T) :=
  v <- at_int x0 (cmt_ self - 1) ;;
  x0 <- assign_int x0 (cmt_ self - 1) (plus_double v amt) ;;
  ts <- assign ts 0%nat (ii_ self) ;;
  states <- invoke_integrator (integrator_ self) (f_ self) x0 t0 ts y dat dat_int ;;
  pred <- at_index states 0%nat ;;
  residual_loop x pred result.

(** [else if (ii_ > 0)]: multiple truncated infusions. *)
Definition truncated_infusions (self : t) (x y : list T) (dat : list float)
    (dat_int : list Z) (t0 : float) (ts : list float)
    (amt rate : float) (result : list T) : M T W E (list T) :=
  let delta := (amt / rate)%float in
  _ <- (if (ii_ self <? delta)%float
        then throw (invalid_argument
                      "Steady State Solution"
                      "Infusion time (F * amt / rate)"
                      (arg_double delta)
                      "is "
                      [msg_text " but must be smaller than the interdose interval (ii): ";
                       msg_lexical_cast (ii_ self);
                       msg_text "!"])
        else ret tt) ;;
  ts <- assign ts 0%nat delta ;;  (* time at which infusion stops *)
  states <- invoke_integrator (integrator_ self) (f_ self) x t0 ts y dat dat_int ;;
  x0 <- at_index states 0%nat ;;
  ts <- assign ts 0%nat (ii_ self - delta)%float ;;
  let rate_v := replicate (length dat) 0%float in
  states <- invoke_integrator (integrator_ self) (f_ self) x0 t0 ts y rate_v dat_int ;;
  pred <- at_index states 0%nat ;;
  residual_loop x pred result.

(** [else]: constant infusion. *)
Definition constant_infusion (self : t) (x y : list T) (rate_v : list float)
    (dat_int : list Z) : M T W E (list T) :=
  derivative <- invoke_rhs (f_ self) 0%float x y rate_v dat_int None ;;
  ret derivative.

(** [operator()(x, y, dat, dat_int, msgs)].  [dat] contains the rates in each
    compartment followed by the adjusted amount. *)
Definition operator_call (self : t) (x y : list T) (dat : list float)
    (dat_int : list Z) (msgs : option ostream) : M T W E (list T) :=
  let t0 := 0%float in
  let ts := replicate 1 0%float in
  rate_v <- vector_size_minus_one dat 0%float ;;
  rate_v <- copy_loop dat rate_v ;;
  let x0 := replicate (length x) value_init in
  x0 <- copy_loop x x0 ;;
  amt <- at_index dat (length dat - 1)%nat ;;
  rate <- at_int dat (cmt_ self - 1) ;;
  let result := replicate (length x) value_init in
  if (rate =? 0)%float then
    bolus_dose self x y dat dat_int t0 ts x0 amt result
  else if (0 <? ii_ self)%float then
    truncated_infusions self x y dat dat_int t0 ts amt rate result
  else
    constant_infusion self x y rate_v dat_int.
(** The body of the branch of a regime, on the locals of [operator_call]. *)
Definition branch (r : regime) (self : t) (x y : list T) (dat : list float)
    (dat_int : list Z) (amt rate : float) : M T W E (list T) :=
  match r with
  | bolus =>
      bolus_dose self x y dat dat_int 0%float (replicate 1 0%float) x amt
        (replicate (length x) value_init)
  | truncated =>
      truncated_infusions self x y dat dat_int 0%float (replicate 1 0%float)
        amt rate (replicate (length x) value_init)
  | constant =>
      constant_infusion self x y (take (length dat - 1) dat) dat_int
  end.
End Functor.
Arguments t : clear implicits.
End SS_system_dd.

(** ** [SS_system_vd]: the amount is a parameter, the rate is data *)

Module SS_system_vd.
Section Functor.
Context {T W E : Type} `{Scalar T}.

Record t := {
  f_ : F T W E;
  ii_ : float;
  cmt_ : Z;  (* dosing compartment *)
  integrator_ : integrator_structure T W E
}.

(** [if (rate == 0)]: bolus dose. *)
Definition bolus_dose (self : t) (x : list T) (dat : list float)
    (dat_int : list Z) (t0 : float) (ts : list float) (x0 : list T)
    (amt : T) (parms : list T) (result : list T) : M T W E (list T) :=
  v <- at_int x0 (cmt_ self - 1) ;;
  x0 <- assign_int x0 (cmt_ self - 1) (plus v amt) ;;
  ts <- assign ts 0%nat (ii_ self) ;;
  states <- invoke_integrator (integrator_ self) (f_ self) x0 t0 ts parms dat dat_int ;;
  pred <- at_index states 0%nat ;;
  residual_loop x pred result.

(** [else if (ii_ > 0)]: multiple truncated infusions. *)
Definition truncated_infusions : M T W E (list T) :=
  throw (invalid_argument
           "Steady State Solution"
           "Current version does not handle case of a"
           (arg_text EmptyString)
           " multple truncated infusion solution"
           [msg_text "(i.e ii > 0 and rate > 0) when F * amt is a parameter"]).

(** [else]: constant infusion. *)
Definition constant_infusion (self : t) (x : list T) (dat : list float)
    (dat_int : list Z) (parms : list T) : M T W E (list T) :=
  derivative <- invoke_rhs (f_ self) 0%float x parms dat dat_int None ;;
  ret derivative.

(** [operator()(x, y, dat, dat_int, msgs)].  The last element of [y] contains
    the amount; [dat] stores the rate. *)
Definition operator_call (self : t) (x y : list T) (dat : list float)
    (dat_int : list Z) (msgs : option ostream) : M T W E (list T) :=
  let t0 := 0%float in
  let ts := replicate 1 0%float in
  let rate_v := replicate (length dat) 0%float in
  rate_v <- copy_loop dat rate_v ;;
  let x0 := replicate (length x) value_init in
  x0 <- copy_loop x x0 ;;
  amt <- at_int y (Z.of_nat (length y) - 1) ;;
  rate <- at_int dat (cmt_ self - 1) ;;
  let result := replicate (length x) value_init in
  parms <- vector_size_minus_one y value_init ;;
  parms <- copy_loop y parms ;;
  if (rate =? 0)%float then
    bolus_dose self x dat dat_int t0 ts x0 amt parms result
  else if (0 <? ii_ self)%float then
    truncated_infusions
  else
    constant_infusion self x dat dat_int parms.
(** The body of the branch of a regime, on the locals of [operator_call]. *)
Definition branch (r : regime) (self : t) (x y : list T) (dat : list float)
    (dat_int : list Z) (amt : T) : M T W E (list T) :=
  match r with
  | bolus =>
      bolus_dose self x dat dat_int 0%float (replicate 1 0%float) x amt
        (take (length y - 1) y) (replicate (length x) value_init)
  | truncated => truncated_infusions
  | constant => constant_infusion self x dat dat_int (take (length y - 1) y)
  end.
End Functor.
Arguments t : clear implicits.
End SS_system_vd.

(** The machine an evaluation starts from: nothing recorded yet. *)
Definition start {T W E} (w : W) : machine T W E := {| calls := []; world := w |}.

(** ** What is asked of the collaborators *)

(** A right-hand side that returns one derivative per compartment. *)
Definition length_preserving {T W E} (f : F T W E) : Prop :=
  forall t x parms rate x_i msgs w dxdt w',
    f t x parms rate x_i msgs w = (inr dxdt, w') -> length dxdt = length x.

(** Collaborators whose result does not depend on the world they run in. *)
Definition deterministic_rhs {T W E} (f : F T W E) : Prop :=
  forall t x parms rate x_i msgs w w',
    fst (f t x parms rate x_i msgs w) = fst (f t x parms rate x_i msgs w').

Definition deterministic_integrator {T W E}
    (integrator : integrator_structure T W E) (f : F T W E) : Prop :=
  forall y0 t0 ts theta x_r x_i w w',
    fst (integrator f y0 t0 ts theta x_r x_i w)
    = fst (integrator f y0 t0 ts theta x_r x_i w').

(** Two runs of a computation agree when, from any two machines, they end
    with the same outcome after the same integrator invocations. *)
Definition agree {T W E A} (c : M T W E A) : Prop :=
  forall m1 m2,
    fst (c m1) = fst (c m2) /\ exists new,
      calls (snd (c m1)) = calls m1 ++ new /\ calls (snd (c m2)) = calls m2 ++ new.

(** ** Test doubles *)

(** A right-hand side double: in every compartment, the rate of infusion
    (zero where [rate] has no entry) less the amount present. *)
Definition rhs_double : F float unit string :=
  fun t x parms rate x_i msgs w =>
    (inr (imap (fun i v => (default 0 (rate !! i) - v)%float) x), w).

(** An integrator double that returns its initial state advanced by the span
    in every compartment. *)
Definition integrator_double : integrator_structure float unit string :=
  fun f y0 t0 ts theta x_r x_i w =>
    (inr (map (fun t1 => map (fun v => (v + (t1 - t0))%float) y0) ts), w).

Definition dd_double (ii : float) (cmt : Z) : SS_system_dd.t float unit string :=
  {| SS_system_dd.f_ := rhs_double; SS_system_dd.ii_ := ii;
     SS_system_dd.cmt_ := cmt; SS_system_dd.integrator_ := integrator_double |}.

Definition vd_double (ii : float) (cmt : Z) : SS_system_vd.t float unit string :=
  {| SS_system_vd.f_ := rhs_double; SS_system_vd.ii_ := ii;
     SS_system_vd.cmt_ := cmt; SS_system_vd.integrator_ := integrator_double |}.

(** A right-hand side double that forgets its compartments. *)
Definition rhs_short : F float unit string :=
  fun t x parms rate x_i msgs w => (inr [], w).

Definition dd_short (ii : float) (cmt : Z) : SS_system_dd.t float unit string :=
  {| SS_system_dd.f_ := rhs_short; SS_system_dd.ii_ := ii;
     SS_system_dd.cmt_ := cmt; SS_system_dd.integrator_ := integrator_double |}.

(** Doubles whose world counts the collaborator invocations: they change the
    world, and what they return does not depend on it. *)
Definition rhs_counting : F float nat string :=
  fun t x parms rate x_i msgs w =>
    (inr (imap (fun i v => (default 0 (rate !! i) - v)%float) x), S w).

Definition integrator_counting : integrator_structure float nat string :=
  fun f y0 t0 ts theta x_r x_i w =>
    (inr (map (fun t1 => map (fun v => (v + (t1 - t0))%float) y0) ts), S w).

(** An integrator that keeps its contract when it returns: one state per
    requested time, each with an entry for every compartment of the initial
    state. *)
Definition well_formed_integrator {T W E}
    (integrator : integrator_structure T W E) : Prop :=
  forall f y0 t0 ts theta x_r x_i w states w',
    integrator f y0 t0 ts theta x_r x_i w = (inr states, w') ->
    length states = length ts /\ Forall (fun s => length s = length y0) states.

(** Doubles of an integrator that breaks down or breaks its contract: one
    that raises from its [n]-th invocation on (the world counts them), one
    that returns no state, one that returns a state without compartments. *)
Definition integrator_failing_after (n : nat) : integrator_structure float nat string :=
  fun f y0 t0 ts theta x_r x_i w =>
    if (n <=? w)%nat then (inl "max_num_steps"%string, S w)
    else (inr (map (fun t1 => map (fun v => (v + (t1 - t0))%float) y0) ts), S w).

Definition integrator_empty : integrator_structure float unit string :=
  fun f y0 t0 ts theta x_r x_i w => (inr [], w).

Definition integrator_short : integrator_structure float unit string :=
  fun f y0 t0 ts theta x_r x_i w => (inr (map (fun _ => []) ts), w).

Definition dd_failing_after (n : nat) (ii : float) (cmt : Z) :
    SS_system_dd.t float nat string :=
  {| SS_system_dd.f_ := rhs_counting; SS_system_dd.ii_ := ii;
     SS_system_dd.cmt_ := cmt;
     SS_system_dd.integrator_ := integrator_failing_after n |}.

Definition vd_failing_after (n : nat) (ii : float) (cmt : Z) :
    SS_system_vd.t float nat string :=
  {| SS_system_vd.f_ := rhs_counting; SS_system_vd.ii_ := ii;
     SS_system_vd.cmt_ := cmt;
     SS_system_vd.integrator_ := integrator_failing_after n |}.

Definition dd_with (integrator : integrator_structure float unit string)
    (ii : float) (cmt : Z) : SS_system_dd.t float unit string :=
  {| SS_system_dd.f_ := rhs_double; SS_system_dd.ii_ := ii;
     SS_system_dd.cmt_ := cmt; SS_system_dd.integrator_ := integrator |}.

Definition vd_with (integrator : integrator_structure float unit string)
    (ii : float) (cmt : Z) : SS_system_vd.t float unit string :=
  {| SS_system_vd.f_ := rhs_double; SS_system_vd.ii_ := ii;
     SS_system_vd.cmt_ := cmt; SS_system_vd.integrator_ := integrator |}.

(** ** The objects of an evaluation

    A second embedding of the two operators, statement by statement, on the
    objects that an evaluation can reach: the members of the functor, what
    the parameters of [operator()] refer to, and the locals.  Every object
    has a name and lives in a [store]; an assignment of the source is a write
    to the name on its left.  A loop that fills a vector is one write of the
    filled vector.  The locals hold whatever the store holds at the start,
    until their declaration writes them. *)

Module Activation.

Inductive double_var :=
  | ii_            (* member *)
  | t0 | amt | rate | delta.

Inductive int_var :=
  | cmt_.          (* member *)

Inductive double_vector_var :=
  | dat            (* parameter *)
  | ts | rate_v
  | rate_v_inner.  (* the [rate_v] of the truncated-infusions branch *)

Inductive int_vector_var :=
  | dat_int.       (* parameter *)

Inductive scalar_var :=
  | amt_scalar.    (* the [amt] of the vd operator *)

Inductive scalar_vector_var :=
  | x | y          (* parameters *)
  | x0 | result | parms | pred | derivative.

#[export] Instance double_var_eq_dec : EqDecision double_var.
Proof. solve_decision. Defined.

#[export] Instance double_vector_var_eq_dec : EqDecision double_vector_var.
Proof. solve_decision. Defined.

#[export] Instance scalar_var_eq_dec : EqDecision scalar_var.
Proof. solve_decision. Defined.

#[export] Instance scalar_vector_var_eq_dec : EqDecision scalar_vector_var.
Proof. solve_decision. Defined.

Definition update {K V} `{EqDecision K} (k : K) (v : V) (vars : K -> V) : K -> V :=
  fun k' => if decide (k' = k) then v else vars k'.

Section Store.
Context {T W E : Type} `{Scalar T}.

Record store := {
  f_ : F T W E;                                   (* member *)
  integrator_ : integrator_structure T W E;       (* member *)
  msgs : option ostream;                          (* parameter *)
  doubles : double_var -> float;
  ints : int_var -> Z;
  double_vectors : double_vector_var -> list float;
  int_vectors : int_vector_var -> list Z;
  scalars : scalar_var -> T;
  scalar_vectors : scalar_vector_var -> list T
}.

Definition set_double (k : double_var) (v : float) (s : store) : store :=
  {| f_ := f_ s; integrator_ := integrator_ s; msgs := msgs s;
     doubles := update k v (doubles s); ints := ints s;
     double_vectors := double_vectors s; int_vectors := int_vectors s;
     scalars := scalars s; scalar_vectors := scalar_vectors s |}.

Definition set_double_vector (k : double_vector_var) (v : list float) (s : store) : store :=
  {| f_ := f_ s; integrator_ := integrator_ s; msgs := msgs s;
     doubles := doubles s; ints := ints s;
     double_vectors := update k v (double_vectors s); int_vectors := int_vectors s;
     scalars := scalars s; scalar_vectors := scalar_vectors s |}.

Definition set_scalar (k : scalar_var) (v : T) (s : store) : store :=
  {| f_ := f_ s; integrator_ := integrator_ s; msgs := msgs s;
     doubles := doubles s; ints := ints s;
     double_vectors := double_vectors s; int_vectors := int_vectors s;
     scalars := update k v (scalars s); scalar_vectors := scalar_vectors s |}.

Definition set_scalar_vector (k : scalar_vector_var) (v : list T) (s : store) : store :=
  {| f_ := f_ s; integrator_ := integrator_ s; msgs := msgs s;
     doubles := doubles s; ints := ints s;
     double_vectors := double_vectors s; int_vectors := int_vectors s;
     scalars := scalars s; scalar_vectors := update k v (scalar_vectors s) |}.

(** The functor and the arguments of two stores are the same. *)
Definition same_objects (s1 s2 : store) : Prop :=
  f_ s1 = f_ s2 /\
  doubles s1 ii_ = doubles s2 ii_ /\
  ints s1 cmt_ = ints s2 cmt_ /\
  integrator_ s1 = integrator_ s2 /\
  scalar_vectors s1 x = scalar_vectors s2 x /\
  scalar_vectors s1 y = scalar_vectors s2 y /\
  double_vectors s1 dat = double_vectors s2 dat /\
  int_vectors s1 dat_int = int_vectors s2 dat_int /\
  msgs s1 = msgs s2.

(** The functor that a store holds. *)
Definition dd_functor (s : store) : SS_system_dd.t T W E :=
  {| SS_system_dd.f_ := f_ s; SS_system_dd.ii_ := doubles s ii_;
     SS_system_dd.cmt_ := ints s cmt_; SS_system_dd.integrator_ := integrator_ s |}.

Definition vd_functor (s : store) : SS_system_vd.t T W E :=
  {| SS_system_vd.f_ := f_ s; SS_system_vd.ii_ := doubles s ii_;
     SS_system_vd.cmt_ := ints s cmt_; SS_system_vd.integrator_ := integrator_ s |}.

(** *** Statements *)

(** A statement runs on a store and a machine; when it fails, the store is
    the one the failure found. *)
Definition exec (A : Type) : Type :=
  store -> machine T W E -> outcome E A * store * machine T W E.

Definition outcome_of {A} (r : outcome E A * store * machine T W E) : outcome E A :=
  fst (fst r).

Definition store_of {A} (r : outcome E A * store * machine T W E) : store :=
  snd (fst r).

Definition machine_of {A} (r : outcome E A * store * machine T W E) : machine T W E :=
  snd r.

(** What the caller sees of a run when it forgets the store. *)
Definition observed {A} (r : outcome E A * store * machine T W E) :
    outcome E A * machine T W E :=
  (outcome_of r, machine_of r).

(** [s1 s2] *)
Definition sequence {A} (s1 : exec unit) (s2 : exec A) : exec A :=
  fun s m =>
    match s1 s m with
    | (Returned _, s', m') => s2 s' m'
    | (Raised e, s', m') => (Raised e, s', m')
    | (Undefined, s', m') => (Undefined, s', m')
    end.

Definition skip : exec unit := fun s m => (Returned tt, s, m).

(** [{ s1 s2 ... }] *)
Definition block (statements : list (exec unit)) : exec unit :=
  foldr sequence skip statements.

(** [name = e;], with [set] the write to [name]. *)
Definition assign_to {V} (set : V -> store -> store) (e : store -> M T W E V) : exec unit :=
  fun s m =>
    match e s m with
    | (Returned v, m') => (Returned tt, set v s, m')
    | (Raised e, m') => (Raised e, s, m')
    | (Undefined, m') => (Undefined, s, m')
    end.

(** [if (c) s1 else s2] *)
Definition if_else (c : store -> bool) (s1 s2 : exec unit) : exec unit :=
  fun s m => if c s then s1 s m else s2 s m.

Definition raise (e : store -> exn E) : exec unit :=
  fun s m => (Raised (e s), s, m).

(** [return e;] *)
Definition return_ {A} (e : store -> A) : exec A :=
  fun s m => (Returned (e s), s, m).

(** A program that leaves the functor and the arguments as it found them,
    whatever its outcome. *)
Definition keeps_objects {A} (p : exec A) : Prop :=
  forall s m, same_objects (store_of (p s m)) s.

(** *** [SS_system_dd::operator()] *)

Definition dd_operator : exec (list T) :=
  sequence
    (block
       [ assign_to (set_double t0) (fun _ => ret 0%float);
         assign_to (set_double_vector ts) (fun _ => ret (replicate 1 0%float));
         assign_to (set_double_vector rate_v)
           (fun s => vector_size_minus_one (double_vectors s dat) 0%float);
         assign_to (set_double_vector rate_v)
           (fun s => copy_loop (double_vectors s dat) (double_vectors s rate_v));
         assign_to (set_scalar_vector x0)
           (fun s => ret (replicate (length (scalar_vectors s x)) value_init));
         assign_to (set_scalar_vector x0)
           (fun s => copy_loop (scalar_vectors s x) (scalar_vectors s x0));
         assign_to (set_double amt)
           (fun s => at_index (double_vectors s dat)
                       (length (double_vectors s dat) - 1)%nat);
         assign_to (set_double rate)
           (fun s => at_int (double_vectors s dat) (ints s cmt_ - 1));
         assign_to (set_scalar_vector result)
           (fun s => ret (replicate (length (scalar_vectors s x)) value_init));
         if_else (fun s => (doubles s rate =? 0)%float)
           (* bolus dose *)
           (block
              [ assign_to (set_scalar_vector x0)
                  (fun s =>
                     v <- at_int (scalar_vectors s x0) (ints s cmt_ - 1) ;;
                     assign_int (scalar_vectors s x0) (ints s cmt_ - 1)
                       (plus_double v (doubles s amt)));
                assign_to (set_double_vector ts)
                  (fun s => assign (double_vectors s ts) 0%nat (doubles s ii_));
                assign_to (set_scalar_vector pred)
                  (fun s =>
                     states <- invoke_integrator (integrator_ s) (f_ s)
                                 (scalar_vectors s x0) (doubles s t0)
                                 (double_vectors s ts) (scalar_vectors s y)
                                 (double_vectors s dat) (int_vectors s dat_int) ;;
                     at_index states 0%nat);
                assign_to (set_scalar_vector result)
                  (fun s => residual_loop (scalar_vectors s x) (scalar_vectors s pred)
                              (scalar_vectors s result)) ])
           (if_else (fun s => (0 <? doubles s ii_)%float)
              (* multiple truncated infusions *)
              (block
                 [ assign_to (set_double delta)
                     (fun s => ret (doubles s amt / doubles s rate)%float);
                   if_else (fun s => (doubles s ii_ <? doubles s delta)%float)
                     (raise
                        (fun s =>
                           invalid_argument
                             "Steady State Solution"
                             "Infusion time (F * amt / rate)"
                             (arg_double (doubles s delta))
                             "is "
                             [msg_text " but must be smaller than the interdose interval (ii): ";
                              msg_lexical_cast (doubles s ii_);
                              msg_text "!"]))
                     skip;
                   assign_to (set_scalar_vector pred) (fun _ => ret []);
                   assign_to (set_double_vector ts)
                     (fun s => assign (double_vectors s ts) 0%nat (doubles s delta));
                   assign_to (set_scalar_vector x0)
                     (fun s =>
                        states <- invoke_integrator (integrator_ s) (f_ s)
                                    (scalar_vectors s x) (doubles s t0)
                                    (double_vectors s ts) (scalar_vectors s y)
                                    (double_vectors s dat) (int_vectors s dat_int) ;;
                        at_index states 0%nat);
                   assign_to (set_double_vector ts)
                     (fun s => assign (double_vectors s ts) 0%nat
                                 (doubles s ii_ - doubles s delta)%float);
                   assign_to (set_double_vector rate_v_inner)
                     (fun s => ret (replicate (length (double_vectors s dat)) 0%float));
                   assign_to (set_scalar_vector pred)
                     (fun s =>
                        states <- invoke_integrator (integrator_ s) (f_ s)
                                    (scalar_vectors s x0) (doubles s t0)
                                    (double_vectors s ts) (scalar_vectors s y)
                                    (double_vectors s rate_v_inner)
                                    (int_vectors s dat_int) ;;
                        at_index states 0%nat);
                   assign_to (set_scalar_vector result)
                     (fun s => residual_loop (scalar_vectors s x) (scalar_vectors s pred)
                                 (scalar_vectors s result)) ])
              (* constant infusion *)
              (block
                 [ assign_to (set_scalar_vector derivative)
                     (fun s => invoke_rhs (f_ s) 0%float (scalar_vectors s x)
                                 (scalar_vectors s y) (double_vectors s rate_v)
                                 (int_vectors s dat_int) None);
                   assign_to (set_scalar_vector result)
                     (fun s => ret (scalar_vectors s derivative)) ])) ])
    (return_ (fun s => scalar_vectors s result)).

(** *** [SS_system_vd::operator()] *)

Definition vd_operator : exec (list T) :=
  sequence
    (block
       [ assign_to (set_double t0) (fun _ => ret 0%float);
         assign_to (set_double_vector ts) (fun _ => ret (replicate 1 0%float));
         assign_to (set_double_vector rate_v)
           (fun s => ret (replicate (length (double_vectors s dat)) 0%float));
         assign_to (set_double_vector rate_v)
           (fun s => copy_loop (double_vectors s dat) (double_vectors s rate_v));
         assign_to (set_scalar_vector x0)
           (fun s => ret (replicate (length (scalar_vectors s x)) value_init));
         assign_to (set_scalar_vector x0)
           (fun s => copy_loop (scalar_vectors s x) (scalar_vectors s x0));
         assign_to (set_scalar amt_scalar)
           (fun s => at_int (scalar_vectors s y)
                       (Z.of_nat (length (scalar_vectors s y)) - 1));
         assign_to (set_double rate)
           (fun s => at_int (double_vectors s dat) (ints s cmt_ - 1));
         assign_to (set_scalar_vector result)
           (fun s => ret (replicate (length (scalar_vectors s x)) value_init));
         assign_to (set_scalar_vector parms)
           (fun s => vector_size_minus_one (scalar_vectors s y) value_init);
         assign_to (set_scalar_vector parms)
           (fun s => copy_loop (scalar_vectors s y) (scalar_vectors s parms));
         if_else (fun s => (doubles s rate =? 0)%float)
           (* bolus dose *)
           (block
              [ assign_to (set_scalar_vector x0)
                  (fun s =>
                     v <- at_int (scalar_vectors s x0) (ints s cmt_ - 1) ;;
                     assign_int (scalar_vectors s x0) (ints s cmt_ - 1)
                       (plus v (scalars s amt_scalar)));
                assign_to (set_double_vector ts)
                  (fun s => assign (double_vectors s ts) 0%nat (doubles s ii_));
                assign_to (set_scalar_vector pred)
                  (fun s =>
                     states <- invoke_integrator (integrator_ s) (f_ s)
                                 (scalar_vectors s x0) (doubles s t0)
                                 (double_vectors s ts) (scalar_vectors s parms)
                                 (double_vectors s dat) (int_vectors s dat_int) ;;
                     at_index states 0%nat);
                assign_to (set_scalar_vector result)
                  (fun s => residual_loop (scalar_vectors s x) (scalar_vectors s pred)
                              (scalar_vectors s result)) ])
           (if_else (fun s => (0 <? doubles s ii_)%float)
              (* multiple truncated infusions *)
              (raise
                 (fun _ =>
                    invalid_argument
                      "Steady State Solution"
                      "Current version does not handle case of a"
                      (arg_text EmptyString)
                      " multple truncated infusion solution"
                      [msg_text "(i.e ii > 0 and rate > 0) when F * amt is a parameter"]))
              (* constant infusion *)
              (block
                 [ assign_to (set_scalar_vector derivative)
                     (fun s => invoke_rhs (f_ s) 0%float (scalar_vectors s x)
                                 (scalar_vectors s parms) (double_vectors s dat)
                                 (int_vectors s dat_int) None);
                   assign_to (set_scalar_vector result)
                     (fun s => ret (scalar_vectors s derivative)) ])) ])
    (return_ (fun s => scalar_vectors s result)).
End Store.
Arguments store : clear implicits.
Arguments exec : clear implicits.
End Activation.

(** A store at the start of an evaluation: the functor, the arguments, and
    locals that hold [junk]. *)
Definition enter (f : F float nat string)
    (integrator : integrator_structure float nat string) (ii : float) (cmt : Z)
    (x y : list float) (dat : list float) (dat_int : list Z) (junk : float) :
    Activation.store float nat string :=
  {| Activation.f_ := f;
     Activation.integrator_ := integrator;
     Activation.msgs := None;
     Activation.doubles :=
       fun k => match k with Activation.ii_ => ii | _ => junk end;
     Activation.ints := fun _ => cmt;
     Activation.double_vectors :=
       fun k => match k with Activation.dat => dat | _ => [junk; junk; junk] end;
     Activation.int_vectors := fun _ => dat_int;
     Activation.scalars := fun _ => junk;
     Activation.scalar_vectors :=
       fun k => match k with
                | Activation.x => x
                | Activation.y => y
                | _ => [junk]
                end |}.

(** * Properties *)

(** ** Comparisons of [double] *)

Lemma SFcompare_antisym (a b : spec_float) (c : comparison) :
  SFcompare a b = Some c -> SFcompare b a = Some (CompOpp c).
Proof.
  destruct a as [sa | sa | | sa ma ea], b as [sb | sb | | sb mb eb]; simpl;
    try discriminate;
    try (destruct sa); try (destruct sb); simpl;
    try (intros [= <-]; reflexivity).
  - intros [= <-]. rewrite (Z.compare_antisym ea eb).
    destruct (ea ?= eb)%Z; simpl; try reflexivity.
    rewrite (Pos.compare_cont_antisym ma mb Eq). reflexivity.
  - intros [= <-]. rewrite (Z.compare_antisym ea eb).
    destruct (ea ?= eb)%Z; simpl; try reflexivity.
    rewrite (Pos.compare_cont_antisym ma mb Eq). reflexivity.
Qed.

(** [a <= b] excludes [b < a]. *)
Lemma leb_not_gt (a b : float) : (a <=? b)%float = true -> (b <? a)%float = false.
Proof.
  rewrite FloatAxioms.leb_spec, FloatAxioms.ltb_spec. unfold SFleb, SFltb.
  destruct (SFcompare (Prim2SF a) (Prim2SF b)) as [c|] eqn:Hc; [|discriminate].
  rewrite (SFcompare_antisym _ _ _ Hc). destruct c; simpl; congruence.
Qed.

(** [a == b] excludes [a > b] and [b > a]. *)
Lemma eqb_not_gt (a b : float) :
  (a =? b)%float = true -> (b <? a)%float = false /\ (a <? b)%float = false.
Proof.
  rewrite FloatAxioms.eqb_spec, !FloatAxioms.ltb_spec. unfold SFeqb, SFltb.
  destruct (SFcompare (Prim2SF a) (Prim2SF b)) as [c|] eqn:Hc; [|discriminate].
  rewrite (SFcompare_antisym _ _ _ Hc). destruct c; simpl; try discriminate. auto.
Qed.

(** ** Steps of an evaluation *)

Section Steps.
Context {T W E : Type}.

Lemma bind_returned {A B} (c : M T W E A) (k : A -> M T W E B) m a m' :
  c m = (Returned a, m') -> bind c k m = k a m'.
Proof. unfold bind. intros ->. reflexivity. Qed.

Lemma bind_returned_inv {A B} (c : M T W E A) (k : A -> M T W E B) m b m' :
  bind c k m = (Returned b, m') ->
  exists a m1, c m = (Returned a, m1) /\ k a m1 = (Returned b, m').
Proof.
  unfold bind. destruct (c m) as [[a | e |] m1]; intros Hk; try discriminate.
  exists a, m1. split; [reflexivity | exact Hk].
Qed.

Lemma at_index_lookup {A} (v : list A) i a (m : machine T W E) :
  v !! i = Some a -> at_index v i m = (Returned a, m).
Proof. unfold at_index. intros ->. reflexivity. Qed.

Lemma at_index_returned_inv {A} (v : list A) i a (m m' : machine T W E) :
  at_index v i m = (Returned a, m') -> v !! i = Some a /\ m' = m.
Proof.
  unfold at_index. destruct (v !! i); intros Hr; inversion Hr; subst. auto.
Qed.

Lemma assign_lt {A} (v : list A) i a (m : machine T W E) :
  (i < length v)%nat -> assign v i a m = (Returned (<[i := a]> v), m).
Proof. unfold assign. intros Hi. destruct (decide _); [reflexivity | lia]. Qed.

Lemma assign_returned_inv {A} (v v' : list A) i a (m m' : machine T W E) :
  assign v i a m = (Returned v', m') ->
  (i < length v)%nat /\ v' = <[i := a]> v /\ m' = m.
Proof.
  unfold assign. destruct (decide _); intros Hr; inversion Hr; subst. auto.
Qed.

Lemma at_int_lookup {A} (v : list A) i a (m : machine T W E) :
  0 <= i -> v !! Z.to_nat i = Some a -> at_int v i m = (Returned a, m).
Proof.
  unfold at_int. intros Hi Ha. destruct (decide _); [|lia].
  apply at_index_lookup, Ha.
Qed.

Lemma assign_int_lt {A} (v : list A) i a (m : machine T W E) :
  0 <= i -> (Z.to_nat i < length v)%nat ->
  assign_int v i a m = (Returned (<[Z.to_nat i := a]> v), m).
Proof.
  unfold assign_int. intros Hi Hlt. destruct (decide _); [|lia].
  apply assign_lt, Hlt.
Qed.

(** A loop that writes [h j] at every index [j] it visits. *)
Lemma for_loop_fill {A} (body : nat -> list A -> M T W E (list A)) (h : nat -> A) count :
  forall i v m,
    (forall j v' m', (i <= j < i + count)%nat -> body j v' m' = assign v' j (h j) m') ->
    (i + count <= length v)%nat ->
    for_loop count i body v m
    = (Returned (take i v ++ (h <$> seq i count) ++ drop (i + count) v), m).
Proof.
  induction count as [|count IH]; intros i v m Hbody Hlen; simpl.
  - rewrite Nat.add_0_r, take_drop. reflexivity.
  - erewrite bind_returned; cycle 1.
    { rewrite Hbody by lia. apply assign_lt. lia. }
    rewrite IH; cycle 1.
    { intros j v' m' Hj. apply Hbody. lia. }
    { rewrite length_insert. lia. }
    f_equal. f_equal.
    rewrite (take_S_r _ _ (h i)) by (apply list_lookup_insert_eq; lia).
    rewrite take_insert_ge by lia.
    rewrite drop_insert_lt by lia.
    rewrite <- app_assoc. csimpl. repeat f_equal. lia.
Qed.

(** What a loop keeps true of its state. *)
Lemma for_loop_invariant {S} (P : S -> Prop) (body : nat -> S -> M T W E S) count :
  (forall i s m s' m', body i s m = (Returned s', m') -> P s -> P s' /\ m' = m) ->
  forall i s m s' m',
    for_loop count i body s m = (Returned s', m') -> P s -> P s' /\ m' = m.
Proof.
  intros Hbody. induction count as [|count IH]; intros i s m s' m' Hrun Hs; simpl in Hrun.
  - inversion Hrun; subst. auto.
  - apply bind_returned_inv in Hrun as (s1 & m1 & Hstep & Hrest).
    destruct (Hbody _ _ _ _ _ Hstep Hs) as [Hs1 ->].
    eapply IH; eauto.
Qed.

Lemma copy_loop_replicate {A} (src : list A) n d (m : machine T W E) :
  (n <= length src)%nat -> copy_loop src (replicate n d) m = (Returned (take n src), m).
Proof.
  intros Hn. unfold copy_loop. rewrite length_replicate.
  rewrite (for_loop_fill _ (fun j => default d (src !! j))); cycle 1.
  { intros j v' m' Hj. destruct (lookup_lt_is_Some_2 src j) as [a Ha]; [lia|].
    erewrite bind_returned by (apply at_index_lookup, Ha). rewrite Ha. reflexivity. }
  { rewrite length_replicate. lia. }
  do 2 f_equal. simpl. rewrite drop_ge, app_nil_r by (rewrite length_replicate; lia).
  apply list_eq. intros j. rewrite list_lookup_fmap.
  destruct (decide (j < n)%nat) as [Hj|Hj].
  - rewrite lookup_seq_lt, lookup_take_lt by lia. simpl.
    destruct (lookup_lt_is_Some_2 src j) as [a Ha]; [lia|]. rewrite Ha. reflexivity.
  - rewrite lookup_seq_ge, lookup_take_ge by lia. reflexivity.
Qed.
End Steps.

Section Residual.
Context {T W E : Type} `{Scalar T}.

(** The residual loop writes [x(i) - pred[i]] in every entry when [pred] has
    an entry for every compartment. *)
Lemma residual_loop_returns (x pred result : list T) (m : machine T W E) :
  length result = length x -> (length x <= length pred)%nat ->
  residual_loop x pred result m = (Returned (zip_with minus x pred), m).
Proof.
  intros Hres Hpred. unfold residual_loop.
  rewrite (for_loop_fill _
    (fun j => minus (default value_init (x !! j)) (default value_init (pred !! j))));
    cycle 1.
  { intros j v' m' Hj.
    destruct (lookup_lt_is_Some_2 x j) as [xj Hxj]; [lia|].
    destruct (lookup_lt_is_Some_2 pred j) as [pj Hpj]; [lia|].
    erewrite bind_returned by (apply at_index_lookup, Hxj).
    erewrite bind_returned by (apply at_index_lookup, Hpj).
    rewrite Hxj, Hpj. reflexivity. }
  { lia. }
  do 2 f_equal. simpl. rewrite drop_ge, app_nil_r by lia.
  apply list_eq. intros j. rewrite list_lookup_fmap, lookup_zip_with.
  destruct (decide (j < length x)%nat) as [Hj|Hj].
  - rewrite lookup_seq_lt by lia. simpl.
    destruct (lookup_lt_is_Some_2 x j) as [xj Hxj]; [lia|].
    destruct (lookup_lt_is_Some_2 pred j) as [pj Hpj]; [lia|].
    rewrite Hxj, Hpj. reflexivity.
  - rewrite lookup_seq_ge by lia. rewrite (lookup_ge_None_2 x j) by lia. reflexivity.
Qed.

(** When it runs to its end the residual loop has kept the size of [result]
    and left the machine as it was. *)
Lemma residual_loop_returned_inv (x pred result r : list T) (m m' : machine T W E) :
  residual_loop x pred result m = (Returned r, m') ->
  length r = length result /\ m' = m.
Proof.
  unfold residual_loop. intros Hrun.
  eapply (for_loop_invariant (fun v => length v = length result)) in Hrun; auto.
  clear. intros i s m s' m' Hstep Hs.
  apply bind_returned_inv in Hstep as (xi & m1 & Hx & Hstep).
  apply at_index_returned_inv in Hx as [_ ->].
  apply bind_returned_inv in Hstep as (pi & m2 & Hp & Hstep).
  apply at_index_returned_inv in Hp as [_ ->].
  apply assign_returned_inv in Hstep as (_ & -> & ->).
  rewrite length_insert. auto.
Qed.
End Residual.

(** ** From the locals of [operator()] to the branch it runs *)

Section Operators.
Context {T W E : Type} `{Scalar T}.

(** The dd operator, statement by statement: an empty [dat] raises
    [std::length_error] when [rate_v] is sized; [dat[cmt_ - 1]] must be an
    entry of [dat]; then the branch of the regime of that entry runs, with
    [rate_v] the entries of [dat] but the last, [x0] a copy of [x] and [amt]
    the last entry of [dat]. *)
Lemma dd_operator_call_eq (self : SS_system_dd.t T W E) x y dat dat_int msgs m :
  SS_system_dd.operator_call self x y dat dat_int msgs m =
  match last dat with
  | None => (Raised length_error, m)
  | Some amt =>
      if decide (0 <= SS_system_dd.cmt_ self - 1) then
        match dat !! Z.to_nat (SS_system_dd.cmt_ self - 1) with
        | Some rate =>
            SS_system_dd.branch (regime_of rate (SS_system_dd.ii_ self))
              self x y dat dat_int amt rate m
        | None => (Undefined, m)
        end
      else (Undefined, m)
  end.
Proof.
  unfold SS_system_dd.operator_call.
  destruct dat as [|d dat']; [reflexivity|].
  set (dat := d :: dat').
  assert (Hlast : last dat = dat !! (length dat - 1)%nat).
  { rewrite last_lookup. f_equal. lia. }
  destruct (lookup_lt_is_Some_2 dat (length dat - 1)%nat) as [amt Hamt]; [simpl; lia|].
  rewrite Hlast, Hamt.
  erewrite bind_returned by reflexivity.
  erewrite bind_returned by (apply copy_loop_replicate; lia).
  erewrite bind_returned by (apply copy_loop_replicate; lia).
  rewrite firstn_all.
  erewrite bind_returned by (apply at_index_lookup, Hamt).
  unfold bind at 1, at_int.
  destruct (decide (0 <= SS_system_dd.cmt_ self - 1)); [|reflexivity].
  unfold at_index.
  destruct (dat !! Z.to_nat (SS_system_dd.cmt_ self - 1)) as [rate|]; [|reflexivity].
  unfold ret, regime_of.
  destruct (rate =? 0)%float; [reflexivity|].
  destruct (0 <? SS_system_dd.ii_ self)%float; reflexivity.
Qed.

(** The vd operator, statement by statement: [y(y.size() - 1)] must be an
    entry of [y] and [dat[cmt_ - 1]] an entry of [dat]; then the branch of the
    regime of that entry runs, with [parms] the entries of [y] but the last
    and [amt] the last entry of [y]. *)
Lemma vd_operator_call_eq (self : SS_system_vd.t T W E) x y dat dat_int msgs m :
  SS_system_vd.operator_call self x y dat dat_int msgs m =
  match last y with
  | None => (Undefined, m)
  | Some amt =>
      if decide (0 <= SS_system_vd.cmt_ self - 1) then
        match dat !! Z.to_nat (SS_system_vd.cmt_ self - 1) with
        | Some rate =>
            SS_system_vd.branch (regime_of rate (SS_system_vd.ii_ self))
              self x y dat dat_int amt m
        | None => (Undefined, m)
        end
      else (Undefined, m)
  end.
Proof.
  unfold SS_system_vd.operator_call.
  erewrite bind_returned by (apply copy_loop_replicate; lia).
  erewrite bind_returned by (apply copy_loop_replicate; lia).
  rewrite firstn_all.
  destruct y as [|y0 y']; [reflexivity|].
  set (y := y0 :: y').
  assert (Hlen : (1 <= length y)%nat) by (simpl; lia).
  assert (Hlast : last y = y !! (length y - 1)%nat).
  { rewrite last_lookup. f_equal. lia. }
  destruct (lookup_lt_is_Some_2 y (length y - 1)%nat) as [amt Hamt]; [lia|].
  rewrite Hlast, Hamt.
  erewrite bind_returned; cycle 1.
  { apply at_int_lookup; [lia|].
    replace (Z.to_nat (Z.of_nat (length y) - 1)) with (length y - 1)%nat by lia.
    exact Hamt. }
  unfold bind at 1, at_int.
  destruct (decide (0 <= SS_system_vd.cmt_ self - 1)); [|reflexivity].
  unfold at_index.
  destruct (dat !! Z.to_nat (SS_system_vd.cmt_ self - 1)) as [rate|]; [|reflexivity].
  unfold ret.
  erewrite bind_returned by reflexivity.
  erewrite bind_returned by (apply copy_loop_replicate; lia).
  unfold regime_of.
  destruct (rate =? 0)%float; [reflexivity|].
  destruct (0 <? SS_system_vd.ii_ self)%float; reflexivity.
Qed.
End Operators.

(** ** The branches, outcome by outcome *)

Section Branches.
Context {T W E : Type} `{Scalar T}.

Lemma dd_bolus_eq (self : SS_system_dd.t T W E) x y dat dat_int amt rate m :
  SS_system_dd.branch bolus self x y dat dat_int amt rate m =
  if decide (0 <= SS_system_dd.cmt_ self - 1) then
    match x !! Z.to_nat (SS_system_dd.cmt_ self - 1) with
    | None => (Undefined, m)
    | Some v =>
        let x0 := <[Z.to_nat (SS_system_dd.cmt_ self - 1) := plus_double v amt]> x in
        let c := {| call_f := SS_system_dd.f_ self; call_y0 := x0; call_t0 := 0%float;
                    call_ts := [SS_system_dd.ii_ self]; call_theta := y;
                    call_x_r := dat; call_x_i := dat_int |} in
        match SS_system_dd.integrator_ self (SS_system_dd.f_ self) x0 0%float
                [SS_system_dd.ii_ self] y dat dat_int (world m) with
        | (inl e, w) =>
            (Raised (collaborator_error e), {| calls := calls m ++ [c]; world := w |})
        | (inr [], w) => (Undefined, {| calls := calls m ++ [c]; world := w |})
        | (inr (pred :: _), w) =>
            residual_loop x pred (replicate (length x) value_init)
              {| calls := calls m ++ [c]; world := w |}
        end
    end
  else (Undefined, m).
Proof.
  unfold SS_system_dd.branch, SS_system_dd.bolus_dose.
  unfold bind at 1, at_int, assign_int.
  destruct (decide (0 <= SS_system_dd.cmt_ self - 1)); [|reflexivity].
  unfold at_index at 1.
  destruct (x !! Z.to_nat (SS_system_dd.cmt_ self - 1)) as [v|] eqn:Hv; [|reflexivity].
  unfold ret.
  erewrite bind_returned by (apply assign_lt; eapply lookup_lt_Some, Hv).
  erewrite bind_returned by (apply assign_lt; simpl; lia).
  simpl.
  unfold bind at 1, invoke_integrator. cbn [world calls].
  destruct (SS_system_dd.integrator_ self _ _ _ _ _ _ _ _) as [[e|[|pred rest]] w];
    reflexivity.
Qed.

Lemma dd_truncated_eq (self : SS_system_dd.t T W E) x y dat dat_int amt rate m :
  SS_system_dd.branch truncated self x y dat dat_int amt rate m =
  let ii := SS_system_dd.ii_ self in
  let delta := (amt / rate)%float in
  let c1 := {| call_f := SS_system_dd.f_ self; call_y0 := x; call_t0 := 0%float;
               call_ts := [delta]; call_theta := y;
               call_x_r := dat; call_x_i := dat_int |} in
  if (ii <? delta)%float then
    (Raised (invalid_argument
               "Steady State Solution" "Infusion time (F * amt / rate)"
               (arg_double delta) "is "
               [msg_text " but must be smaller than the interdose interval (ii): ";
                msg_lexical_cast ii; msg_text "!"]), m)
  else
    match SS_system_dd.integrator_ self (SS_system_dd.f_ self) x 0%float [delta]
            y dat dat_int (world m) with
    | (inl e, w) =>
        (Raised (collaborator_error e), {| calls := calls m ++ [c1]; world := w |})
    | (inr [], w) => (Undefined, {| calls := calls m ++ [c1]; world := w |})
    | (inr (x0 :: _), w) =>
        let c2 := {| call_f := SS_system_dd.f_ self; call_y0 := x0; call_t0 := 0%float;
                     call_ts := [(ii - delta)%float]; call_theta := y;
                     call_x_r := replicate (length dat) 0%float;
                     call_x_i := dat_int |} in
        match SS_system_dd.integrator_ self (SS_system_dd.f_ self) x0 0%float
                [(ii - delta)%float] y (replicate (length dat) 0%float) dat_int w with
        | (inl e, w2) =>
            (Raised (collaborator_error e), {| calls := calls m ++ [c1; c2]; world := w2 |})
        | (inr [], w2) => (Undefined, {| calls := calls m ++ [c1; c2]; world := w2 |})
        | (inr (pred :: _), w2) =>
            residual_loop x pred (replicate (length x) value_init)
              {| calls := calls m ++ [c1; c2]; world := w2 |}
        end
    end.
Proof.
  unfold SS_system_dd.branch, SS_system_dd.truncated_infusions. cbv zeta.
  unfold bind at 1.
  destruct (SS_system_dd.ii_ self <? amt / rate)%float; [reflexivity|].
  unfold ret.
  erewrite bind_returned by (apply assign_lt; simpl; lia).
  simpl.
  unfold bind at 1, invoke_integrator at 1. cbn [world calls].
  destruct (SS_system_dd.integrator_ self _ x _ _ _ _ _ _) as [[e|[|x0 rest]] w];
    try reflexivity.
  unfold bind at 1, at_index at 1. simpl. unfold ret.
  erewrite bind_returned by (apply assign_lt; simpl; lia).
  simpl.
  unfold bind at 1, invoke_integrator at 1. cbn [world calls].
  rewrite <- app_assoc. simpl.
  destruct (SS_system_dd.integrator_ self _ x0 _ _ _ _ _ _) as [[e|[|pred rest']] w2];
    reflexivity.
Qed.

Lemma dd_constant_eq (self : SS_system_dd.t T W E) x y dat dat_int amt rate m :
  SS_system_dd.branch constant self x y dat dat_int amt rate m =
  match SS_system_dd.f_ self 0%float x y (take (length dat - 1) dat) dat_int None
          (world m) with
  | (inl e, w) => (Raised (collaborator_error e), {| calls := calls m; world := w |})
  | (inr dxdt, w) => (Returned dxdt, {| calls := calls m; world := w |})
  end.
Proof.
  unfold SS_system_dd.branch, SS_system_dd.constant_infusion, bind, invoke_rhs.
  destruct (SS_system_dd.f_ self _ _ _ _ _ _ _) as [[e|dxdt] w]; reflexivity.
Qed.

Lemma vd_bolus_eq (self : SS_system_vd.t T W E) x y dat dat_int amt m :
  SS_system_vd.branch bolus self x y dat dat_int amt m =
  if decide (0 <= SS_system_vd.cmt_ self - 1) then
    match x !! Z.to_nat (SS_system_vd.cmt_ self - 1) with
    | None => (Undefined, m)
    | Some v =>
        let x0 := <[Z.to_nat (SS_system_vd.cmt_ self - 1) := plus v amt]> x in
        let parms := take (length y - 1) y in
        let c := {| call_f := SS_system_vd.f_ self; call_y0 := x0; call_t0 := 0%float;
                    call_ts := [SS_system_vd.ii_ self]; call_theta := parms;
                    call_x_r := dat; call_x_i := dat_int |} in
        match SS_system_vd.integrator_ self (SS_system_vd.f_ self) x0 0%float
                [SS_system_vd.ii_ self] parms dat dat_int (world m) with
        | (inl e, w) =>
            (Raised (collaborator_error e), {| calls := calls m ++ [c]; world := w |})
        | (inr [], w) => (Undefined, {| calls := calls m ++ [c]; world := w |})
        | (inr (pred :: _), w) =>
            residual_loop x pred (replicate (length x) value_init)
              {| calls := calls m ++ [c]; world := w |}
        end
    end
  else (Undefined, m).
Proof.
  unfold SS_system_vd.branch, SS_system_vd.bolus_dose.
  unfold bind at 1, at_int, assign_int.
  destruct (decide (0 <= SS_system_vd.cmt_ self - 1)); [|reflexivity].
  unfold at_index at 1.
  destruct (x !! Z.to_nat (SS_system_vd.cmt_ self - 1)) as [v|] eqn:Hv; [|reflexivity].
  unfold ret.
  erewrite bind_returned by (apply assign_lt; eapply lookup_lt_Some, Hv).
  erewrite bind_returned by (apply assign_lt; simpl; lia).
  simpl.
  unfold bind at 1, invoke_integrator. cbn [world calls].
  destruct (SS_system_vd.integrator_ self _ _ _ _ _ _ _ _) as [[e|[|pred rest]] w];
    reflexivity.
Qed.

Lemma vd_constant_eq (self : SS_system_vd.t T W E) x y dat dat_int amt m :
  SS_system_vd.branch constant self x y dat dat_int amt m =
  match SS_system_vd.f_ self 0%float x (take (length y - 1) y) dat dat_int None
          (world m) with
  | (inl e, w) => (Raised (collaborator_error e), {| calls := calls m; world := w |})
  | (inr dxdt, w) => (Returned dxdt, {| calls := calls m; world := w |})
  end.
Proof.
  unfold SS_system_vd.branch, SS_system_vd.constant_infusion, bind, invoke_rhs.
  destruct (SS_system_vd.f_ self _ _ _ _ _ _ _) as [[e|dxdt] w]; reflexivity.
Qed.
End Branches.

(** ** Regime dispatch *)

Section Dispatch.
Context {T W E : Type} `{Scalar T}.

(** C1: in both functors the branch is chosen by the rate and the interdose
    interval alone: [rate == 0] runs the bolus branch whatever [ii_] is;
    [rate != 0] with [ii_ > 0] runs the truncated-infusions branch;
    [rate != 0] with [ii_ <= 0], in particular [ii_ == 0], runs the
    constant-infusion branch; and one of the three branches runs in every
    case.  Each functor has its own half.  The hypotheses of a half say that
    its operator reaches the dispatch: [dat[cmt_ - 1]] is an entry of [dat],
    and the amount can be read, at the end of [dat] for the dd functor and at
    the end of [y] for the vd functor. *)
Theorem regime_dispatch_exact
    (x y : list T) (dat : list float) (dat_int : list Z) (msgs : option ostream)
    (m : machine T W E) :
  (forall (dd : SS_system_dd.t T W E) (rate amt : float),
     0 <= SS_system_dd.cmt_ dd - 1 ->
     dat !! Z.to_nat (SS_system_dd.cmt_ dd - 1) = Some rate ->
     last dat = Some amt ->
     let run := SS_system_dd.operator_call dd x y dat dat_int msgs m in
     let branch r := SS_system_dd.branch r dd x y dat dat_int amt rate m in
     ((rate =? 0)%float = true -> run = branch bolus) /\
     ((rate =? 0)%float = false -> (0 <? SS_system_dd.ii_ dd)%float = true ->
      run = branch truncated) /\
     ((rate =? 0)%float = false -> (SS_system_dd.ii_ dd <=? 0)%float = true ->
      run = branch constant) /\
     ((rate =? 0)%float = false -> (SS_system_dd.ii_ dd =? 0)%float = true ->
      run = branch constant) /\
     (exists r, run = branch r)) /\
  (forall (vd : SS_system_vd.t T W E) (rate : float) (amt : T),
     0 <= SS_system_vd.cmt_ vd - 1 ->
     dat !! Z.to_nat (SS_system_vd.cmt_ vd - 1) = Some rate ->
     last y = Some amt ->
     let run := SS_system_vd.operator_call vd x y dat dat_int msgs m in
     let branch r := SS_system_vd.branch r vd x y dat dat_int amt m in
     ((rate =? 0)%float = true -> run = branch bolus) /\
     ((rate =? 0)%float = false -> (0 <? SS_system_vd.ii_ vd)%float = true ->
      run = branch truncated) /\
     ((rate =? 0)%float = false -> (SS_system_vd.ii_ vd <=? 0)%float = true ->
      run = branch constant) /\
     ((rate =? 0)%float = false -> (SS_system_vd.ii_ vd =? 0)%float = true ->
      run = branch constant) /\
     (exists r, run = branch r)).
Proof.
  split.
  - intros dd rate amt Hc Hrate Hamt run branch. subst run branch. cbv beta.
    rewrite dd_operator_call_eq, Hamt.
    destruct (decide (0 <= SS_system_dd.cmt_ dd - 1)); [|lia].
    rewrite Hrate.
    repeat apply conj; try (eexists; reflexivity); unfold regime_of.
    + intros ->. reflexivity.
    + intros -> ->. reflexivity.
    + intros -> Hle. rewrite (leb_not_gt _ _ Hle). reflexivity.
    + intros -> Heq. destruct (eqb_not_gt _ _ Heq) as [-> _]. reflexivity.
  - intros vd rate amt Hc Hrate Hamt run branch. subst run branch. cbv beta.
    rewrite vd_operator_call_eq, Hamt.
    destruct (decide (0 <= SS_system_vd.cmt_ vd - 1)); [|lia].
    rewrite Hrate.
    repeat apply conj; try (eexists; reflexivity); unfold regime_of.
    + intros ->. reflexivity.
    + intros -> ->. reflexivity.
    + intros -> Hle. rewrite (leb_not_gt _ _ Hle). reflexivity.
    + intros -> Heq. destruct (eqb_not_gt _ _ Heq) as [-> _]. reflexivity.
Qed.

(** C10: the rate that chooses the branch is the entry [dat[cmt_ - 1]] and no
    other: two data vectors with the same entry at the dosing compartment run
    the branch of the same regime, whatever their other entries are, and a
    zero entry there runs the bolus branch.  Each functor has its own half;
    the dd half asks nothing of [y]. *)
Theorem dispatch_reads_dosing_compartment
    (x y : list T) (dat dat' : list float) (dat_int : list Z)
    (msgs : option ostream) (m : machine T W E) :
  (forall (dd : SS_system_dd.t T W E) (rate amt amt' : float),
     0 <= SS_system_dd.cmt_ dd - 1 ->
     dat !! Z.to_nat (SS_system_dd.cmt_ dd - 1) = Some rate ->
     dat' !! Z.to_nat (SS_system_dd.cmt_ dd - 1) = Some rate ->
     last dat = Some amt ->
     last dat' = Some amt' ->
     let r := regime_of rate (SS_system_dd.ii_ dd) in
     SS_system_dd.operator_call dd x y dat dat_int msgs m
     = SS_system_dd.branch r dd x y dat dat_int amt rate m /\
     SS_system_dd.operator_call dd x y dat' dat_int msgs m
     = SS_system_dd.branch r dd x y dat' dat_int amt' rate m /\
     ((rate =? 0)%float = true -> r = bolus)) /\
  (forall (vd : SS_system_vd.t T W E) (rate : float) (amt : T),
     0 <= SS_system_vd.cmt_ vd - 1 ->
     dat !! Z.to_nat (SS_system_vd.cmt_ vd - 1) = Some rate ->
     dat' !! Z.to_nat (SS_system_vd.cmt_ vd - 1) = Some rate ->
     last y = Some amt ->
     let r := regime_of rate (SS_system_vd.ii_ vd) in
     SS_system_vd.operator_call vd x y dat dat_int msgs m
     = SS_system_vd.branch r vd x y dat dat_int amt m /\
     SS_system_vd.operator_call vd x y dat' dat_int msgs m
     = SS_system_vd.branch r vd x y dat' dat_int amt m /\
     ((rate =? 0)%float = true -> r = bolus)).
Proof.
  split.
  - intros dd rate amt amt' Hc Hrate Hrate' Hamt Hamt' r. subst r.
    rewrite !dd_operator_call_eq, Hamt, Hamt'.
    destruct (decide (0 <= SS_system_dd.cmt_ dd - 1)); [|lia].
    rewrite Hrate, Hrate'. unfold regime_of.
    repeat apply conj; try reflexivity. intros ->. reflexivity.
  - intros vd rate amt Hc Hrate Hrate' Hamt r. subst r.
    rewrite !vd_operator_call_eq, Hamt.
    destruct (decide (0 <= SS_system_vd.cmt_ vd - 1)); [|lia].
    rewrite Hrate, Hrate'. unfold regime_of.
    repeat apply conj; try reflexivity. intros ->. reflexivity.
Qed.
End Dispatch.

(** The dd evaluations are made with an empty [y], which the dd operator
    does not read before the dispatch. *)
Lemma regime_dispatch_exact_witness :
  let x := [1; 2]%float in
  let y := [0.5; 4]%float in
  (SS_system_dd.operator_call (dd_double 10 1) x [] [0; 0; 4]%float [] None (start tt)
   = SS_system_dd.branch bolus (dd_double 10 1) x [] [0; 0; 4]%float [] 4%float 0%float
       (start tt)) /\
  (SS_system_vd.operator_call (vd_double 10 1) x y [0; 0; 4]%float [] None (start tt)
   = SS_system_vd.branch bolus (vd_double 10 1) x y [0; 0; 4]%float [] 4%float
       (start tt)) /\
  (SS_system_dd.operator_call (dd_double 10 1) x [] [2; 0; 4]%float [] None (start tt)
   = SS_system_dd.branch truncated (dd_double 10 1) x [] [2; 0; 4]%float [] 4%float 2%float
       (start tt)) /\
  (SS_system_vd.operator_call (vd_double 10 1) x y [2; 0; 4]%float [] None (start tt)
   = SS_system_vd.branch truncated (vd_double 10 1) x y [2; 0; 4]%float [] 4%float
       (start tt)) /\
  (SS_system_dd.operator_call (dd_double 0 1) x [] [2; 0; 4]%float [] None (start tt)
   = SS_system_dd.branch constant (dd_double 0 1) x [] [2; 0; 4]%float [] 4%float 2%float
       (start tt)) /\
  (SS_system_vd.operator_call (vd_double 0 1) x y [2; 0; 4]%float [] None (start tt)
   = SS_system_vd.branch constant (vd_double 0 1) x y [2; 0; 4]%float [] 4%float
       (start tt)).
Proof.
  intros x y.
  destruct (proj1 (regime_dispatch_exact x [] [0; 0; 4]%float [] None (start tt))
              (dd_double 10 1) 0%float 4%float ltac:(simpl; lia) eq_refl eq_refl)
    as (Hb_dd & _).
  destruct (proj2 (regime_dispatch_exact x y [0; 0; 4]%float [] None (start tt))
              (vd_double 10 1) 0%float 4%float ltac:(simpl; lia) eq_refl eq_refl)
    as (Hb_vd & _).
  destruct (proj1 (regime_dispatch_exact x [] [2; 0; 4]%float [] None (start tt))
              (dd_double 10 1) 2%float 4%float ltac:(simpl; lia) eq_refl eq_refl)
    as (_ & Ht_dd & _).
  destruct (proj2 (regime_dispatch_exact x y [2; 0; 4]%float [] None (start tt))
              (vd_double 10 1) 2%float 4%float ltac:(simpl; lia) eq_refl eq_refl)
    as (_ & Ht_vd & _).
  destruct (proj1 (regime_dispatch_exact x [] [2; 0; 4]%float [] None (start tt))
              (dd_double 0 1) 2%float 4%float ltac:(simpl; lia) eq_refl eq_refl)
    as (_ & _ & Hc_dd & _).
  destruct (proj2 (regime_dispatch_exact x y [2; 0; 4]%float [] None (start tt))
              (vd_double 0 1) 2%float 4%float ltac:(simpl; lia) eq_refl eq_refl)
    as (_ & _ & Hc_vd & _).
  refine (conj _ (conj _ (conj _ (conj _ (conj _ _))))).
  - apply Hb_dd. reflexivity.
  - apply Hb_vd. reflexivity.
  - apply Ht_dd; reflexivity.
  - apply Ht_vd; reflexivity.
  - apply Hc_dd; reflexivity.
  - apply Hc_vd; reflexivity.
Defined.

(** The dd evaluations are made with an empty [y]. *)
Lemma dispatch_reads_dosing_compartment_witness :
  let x := [1; 2]%float in
  let y := [0.5; 4]%float in
  SS_system_dd.operator_call (dd_double 10 1) x [] [0; 3; 4]%float [] None (start tt)
  = SS_system_dd.branch bolus (dd_double 10 1) x [] [0; 3; 4]%float [] 4%float 0%float
      (start tt) /\
  SS_system_dd.operator_call (dd_double 10 1) x [] [0; 7; 5]%float [] None (start tt)
  = SS_system_dd.branch bolus (dd_double 10 1) x [] [0; 7; 5]%float [] 5%float 0%float
      (start tt) /\
  SS_system_vd.operator_call (vd_double 10 1) x y [0; 3; 4]%float [] None (start tt)
  = SS_system_vd.branch bolus (vd_double 10 1) x y [0; 3; 4]%float [] 4%float
      (start tt) /\
  SS_system_vd.operator_call (vd_double 10 1) x y [0; 7; 5]%float [] None (start tt)
  = SS_system_vd.branch bolus (vd_double 10 1) x y [0; 7; 5]%float [] 4%float
      (start tt).
Proof.
  intros x y.
  destruct (proj1 (dispatch_reads_dosing_compartment x [] [0; 3; 4]%float
                     [0; 7; 5]%float [] None (start tt))
              (dd_double 10 1) 0%float 4%float 5%float
              ltac:(simpl; lia) eq_refl eq_refl eq_refl eq_refl)
    as (H1 & H2 & _).
  destruct (proj2 (dispatch_reads_dosing_compartment x y [0; 3; 4]%float
                     [0; 7; 5]%float [] None (start tt))
              (vd_double 10 1) 0%float 4%float
              ltac:(simpl; lia) eq_refl eq_refl eq_refl)
    as (H3 & H4 & _).
  exact (conj H1 (conj H2 (conj H3 H4))).
Defined.

(** ** The residual loop raises nothing *)

Section NoRaise.
Context {T W E : Type} `{Scalar T}.

Lemma for_loop_not_raised {S} (body : nat -> S -> M T W E S) count :
  (forall i s m e m', body i s m <> (Raised e, m')) ->
  forall i s m e m', for_loop count i body s m <> (Raised e, m').
Proof.
  intros Hbody. induction count as [|count IH]; intros i s m e m'; simpl.
  - discriminate.
  - unfold bind. destruct (body i s m) as [[s1 | e1 |] m1] eqn:Hstep.
    + apply IH.
    + destruct (Hbody _ _ _ _ _ Hstep).
    + discriminate.
Qed.

Lemma residual_loop_not_raised (x pred result : list T) (m m' : machine T W E) e :
  residual_loop x pred result m <> (Raised e, m').
Proof.
  apply for_loop_not_raised. clear. intros i s m e m'.
  unfold bind, at_index, assign, ret, undefined.
  destruct (x !! i); [|discriminate].
  destruct (pred !! i); [|discriminate].
  destruct (decide _); discriminate.
Qed.
End NoRaise.

(** ** The truncated-infusions branch *)

Section Truncated.
Context {T W E : Type} `{Scalar T}.

(** C2: in the dd functor with [rate != 0], [ii_ > 0] and
    [delta = amt / rate <= ii_], the integrator is invoked exactly twice:
    from [t0 = 0] to [delta], starting at [x], with the data vector as it was
    passed; then from [t0 = 0] to [ii_ - delta], starting at the state the
    first invocation returned, with a rate vector of zeros.  The result is
    [x(i) - pred(i)] in every compartment, [pred] being what the second
    invocation returned.  The hypotheses on the integrator say that it
    returns a state for the requested time, with an entry for every
    compartment. *)
Theorem dd_truncated_two_invocations
    (self : SS_system_dd.t T W E) (x y : list T) (dat : list float)
    (dat_int : list Z) (msgs : option ostream) (m : machine T W E)
    (rate amt : float) (x1 pred : list T) (rest1 rest2 : list (list T)) (w1 w2 : W) :
  let ii := SS_system_dd.ii_ self in
  let f := SS_system_dd.f_ self in
  let delta := (amt / rate)%float in
  let zeros := replicate (length dat) 0%float in
  0 <= SS_system_dd.cmt_ self - 1 ->
  dat !! Z.to_nat (SS_system_dd.cmt_ self - 1) = Some rate ->
  last dat = Some amt ->
  (rate =? 0)%float = false ->
  (0 <? ii)%float = true ->
  (delta <=? ii)%float = true ->
  SS_system_dd.integrator_ self f x 0%float [delta] y dat dat_int (world m)
  = (inr (x1 :: rest1), w1) ->
  SS_system_dd.integrator_ self f x1 0%float [(ii - delta)%float] y zeros dat_int w1
  = (inr (pred :: rest2), w2) ->
  (length x <= length pred)%nat ->
  exists r,
    SS_system_dd.operator_call self x y dat dat_int msgs m
    = (Returned r,
       {| calls := calls m ++
            [ {| call_f := f; call_y0 := x; call_t0 := 0%float;
                 call_ts := [delta]; call_theta := y;
                 call_x_r := dat; call_x_i := dat_int |};
              {| call_f := f; call_y0 := x1; call_t0 := 0%float;
                 call_ts := [(ii - delta)%float]; call_theta := y;
                 call_x_r := zeros; call_x_i := dat_int |} ];
          world := w2 |}) /\
    length r = length x /\
    forall i xi pi, x !! i = Some xi -> pred !! i = Some pi ->
                    r !! i = Some (minus xi pi).
Proof.
  intros ii f delta zeros Hc Hrate Hamt Hnz Hii Hdelta Hfirst Hsecond Hpred.
  exists (zip_with minus x pred).
  split; [|split].
  - rewrite dd_operator_call_eq, Hamt.
    destruct (decide (0 <= SS_system_dd.cmt_ self - 1)); [|lia].
    rewrite Hrate. unfold regime_of. rewrite Hnz. fold ii. rewrite Hii.
    rewrite dd_truncated_eq. cbv zeta. fold ii f delta zeros.
    rewrite (leb_not_gt _ _ Hdelta), Hfirst, Hsecond.
    apply residual_loop_returns; [apply length_replicate | exact Hpred].
  - rewrite length_zip_with. lia.
  - intros i xi pi Hxi Hpi. rewrite lookup_zip_with, Hxi, Hpi. reflexivity.
Qed.

(** C3: in the dd functor with [rate != 0] and [ii_ > 0], the evaluation
    raises an invalid-argument failure exactly when [delta = amt / rate] is
    greater than [ii_]; [delta == ii_] does not.  The failing evaluation ends
    there, before any integrator invocation and without a result, and the
    failure carries [delta] and [ii_]. *)
Theorem dd_truncated_fails_iff
    (self : SS_system_dd.t T W E) (x y : list T) (dat : list float)
    (dat_int : list Z) (msgs : option ostream) (m : machine T W E)
    (rate amt : float) :
  let ii := SS_system_dd.ii_ self in
  let delta := (amt / rate)%float in
  let run := SS_system_dd.operator_call self x y dat dat_int msgs m in
  0 <= SS_system_dd.cmt_ self - 1 ->
  dat !! Z.to_nat (SS_system_dd.cmt_ self - 1) = Some rate ->
  last dat = Some amt ->
  (rate =? 0)%float = false ->
  (0 <? ii)%float = true ->
  ((exists e, fst run = Raised e /\ is_invalid_argument e = true)
   <-> (ii <? delta)%float = true) /\
  ((delta =? ii)%float = true ->
   forall e, fst run = Raised e -> is_invalid_argument e = false) /\
  ((ii <? delta)%float = true ->
   run = (Raised (invalid_argument
                    "Steady State Solution" "Infusion time (F * amt / rate)"
                    (arg_double delta) "is "
                    [msg_text " but must be smaller than the interdose interval (ii): ";
                     msg_lexical_cast ii; msg_text "!"]), m) /\
   returns (fst run) = false).
Proof.
  intros ii delta run Hc Hrate Hamt Hnz Hii.
  assert (Hrun : run = SS_system_dd.branch truncated self x y dat dat_int amt rate m).
  { subst run. rewrite dd_operator_call_eq, Hamt.
    destruct (decide (0 <= SS_system_dd.cmt_ self - 1)); [|lia].
    rewrite Hrate. unfold regime_of. rewrite Hnz. fold ii. rewrite Hii. reflexivity. }
  rewrite dd_truncated_eq in Hrun. cbv zeta in Hrun. fold ii delta in Hrun.
  assert (Hquiet : (ii <? delta)%float = false ->
                   forall e, fst run = Raised e -> is_invalid_argument e = false).
  { intros Hle e. rewrite Hrun, Hle.
    destruct (SS_system_dd.integrator_ self _ x _ _ _ _ _ _) as [[e1|[|x1 rest1]] w1];
      simpl; [intros [= <-]; reflexivity | discriminate |].
    destruct (SS_system_dd.integrator_ self _ x1 _ _ _ _ _ _) as [[e2|[|pred rest2]] w2];
      simpl; [intros [= <-]; reflexivity | discriminate |].
    intros Hraised.
    destruct (residual_loop x pred _ _) as [o m'] eqn:Hloop. simpl in Hraised. subst o.
    destruct (residual_loop_not_raised _ _ _ _ _ _ Hloop). }
  split; [split|split].
  - intros (e & Hraised & Hinv).
    destruct (ii <? delta)%float eqn:Hgt; [reflexivity|].
    rewrite (Hquiet eq_refl e Hraised) in Hinv. discriminate.
  - intros Hgt. rewrite Hrun, Hgt. eexists. split; reflexivity.
  - intros Heq. apply Hquiet. apply (eqb_not_gt _ _ Heq).
  - intros Hgt. rewrite Hrun, Hgt. split; reflexivity.
Qed.

(** C4: in the vd functor every evaluation that reaches the branch of
    [rate != 0] and [ii_ > 0] raises the invalid-argument failure, whatever
    the amount, the rate and the interval are; it invokes no collaborator and
    returns nothing. *)
Theorem vd_truncated_always_fails
    (self : SS_system_vd.t T W E) (x y : list T) (dat : list float)
    (dat_int : list Z) (msgs : option ostream) (m : machine T W E)
    (rate : float) (amt : T) :
  let run := SS_system_vd.operator_call self x y dat dat_int msgs m in
  last y = Some amt ->
  0 <= SS_system_vd.cmt_ self - 1 ->
  dat !! Z.to_nat (SS_system_vd.cmt_ self - 1) = Some rate ->
  (rate =? 0)%float = false ->
  (0 <? SS_system_vd.ii_ self)%float = true ->
  run = (Raised (invalid_argument
                   "Steady State Solution"
                   "Current version does not handle case of a"
                   (arg_text EmptyString)
                   " multple truncated infusion solution"
                   [msg_text "(i.e ii > 0 and rate > 0) when F * amt is a parameter"]),
         m) /\
  (exists e, fst run = Raised e /\ is_invalid_argument e = true) /\
  returns (fst run) = false.
Proof.
  intros run Hamt Hc Hrate Hnz Hii.
  assert (Hrun : run = SS_system_vd.truncated_infusions m).
  { subst run. rewrite vd_operator_call_eq, Hamt.
    destruct (decide (0 <= SS_system_vd.cmt_ self - 1)); [|lia].
    rewrite Hrate. unfold regime_of. rewrite Hnz, Hii. reflexivity. }
  rewrite Hrun. split; [reflexivity|]. split; [|reflexivity].
  eexists. split; reflexivity.
Qed.
End Truncated.

(** [amt = 4], [rate = 2], [ii_ = 10]: spans [2] and [8], zero rates in the
    second invocation. *)
Lemma dd_truncated_two_invocations_witness :
  let x := [1; 2]%float in
  let y := [0.5]%float in
  let dat := [2; 0; 4]%float in
  exists r,
    SS_system_dd.operator_call (dd_double 10 1) x y dat [] None (start tt)
    = (Returned r,
       {| calls := [] ++
            [ {| call_f := rhs_double; call_y0 := x; call_t0 := 0%float;
                 call_ts := [2%float]; call_theta := y;
                 call_x_r := dat; call_x_i := [] |};
              {| call_f := rhs_double; call_y0 := [3; 4]%float; call_t0 := 0%float;
                 call_ts := [8%float]; call_theta := y;
                 call_x_r := [0; 0; 0]%float; call_x_i := [] |} ];
          world := tt |}) /\
    length r = length x /\
    forall i xi pi, x !! i = Some xi -> [11; 12]%float !! i = Some pi ->
                    r !! i = Some (minus xi pi).
Proof.
  intros x y dat.
  exact (dd_truncated_two_invocations (dd_double 10 1) x y dat [] None (start tt)
           2%float 4%float [3; 4]%float [11; 12]%float [] [] tt tt
           ltac:(simpl; lia) eq_refl eq_refl eq_refl eq_refl eq_refl eq_refl eq_refl
           ltac:(simpl; lia)).
Defined.

(** [amt = 10], [rate = 2], [ii_ = 4]: [delta = 5 > 4]; and [amt = 8]:
    [delta == ii_]. *)
Lemma dd_truncated_fails_iff_witness :
  let x := [1; 2]%float in
  let y := [0.5]%float in
  let dat := [2; 0; 10]%float in
  let run := SS_system_dd.operator_call (dd_double 4 1) x y dat [] None (start tt) in
  (exists e, fst run = Raised e /\ is_invalid_argument e = true) /\
  run = (Raised (invalid_argument
                   "Steady State Solution" "Infusion time (F * amt / rate)"
                   (arg_double 5%float) "is "
                   [msg_text " but must be smaller than the interdose interval (ii): ";
                    msg_lexical_cast 4%float; msg_text "!"]), start tt) /\
  returns (fst run) = false /\
  (forall e,
     fst (SS_system_dd.operator_call (dd_double 4 1) x y [2; 0; 8]%float [] None (start tt))
     = Raised e -> is_invalid_argument e = false).
Proof.
  intros x y dat run.
  destruct (dd_truncated_fails_iff (dd_double 4 1) x y dat [] None (start tt)
              2%float 10%float ltac:(simpl; lia) eq_refl eq_refl eq_refl eq_refl)
    as ([_ Hiff] & _ & Hfail).
  destruct (dd_truncated_fails_iff (dd_double 4 1) x y [2; 0; 8]%float [] None (start tt)
              2%float 8%float ltac:(simpl; lia) eq_refl eq_refl eq_refl eq_refl)
    as (_ & Hboundary & _).
  destruct (Hfail eq_refl) as [Hrun Hnone].
  exact (conj (Hiff eq_refl) (conj Hrun (conj Hnone (Hboundary eq_refl)))).
Defined.

(** [amt = 1], [rate = 100], [ii_ = 1000]: feasible, and refused. *)
Lemma vd_truncated_always_fails_witness :
  let x := [1; 2]%float in
  let y := [0.5; 1]%float in
  let dat := [100; 0]%float in
  let run := SS_system_vd.operator_call (vd_double 1000 1) x y dat [] None (start tt) in
  run = (Raised (invalid_argument
                   "Steady State Solution"
                   "Current version does not handle case of a"
                   (arg_text EmptyString)
                   " multple truncated infusion solution"
                   [msg_text "(i.e ii > 0 and rate > 0) when F * amt is a parameter"]),
         start tt) /\
  (exists e, fst run = Raised e /\ is_invalid_argument e = true) /\
  returns (fst run) = false.
Proof.
  intros x y dat run.
  exact (vd_truncated_always_fails (vd_double 1000 1) x y dat [] None (start tt)
           100%float 1%float eq_refl ltac:(simpl; lia) eq_refl eq_refl eq_refl).
Defined.

(** ** The bolus and constant-infusion branches *)

Section BolusConstant.
Context {T W E : Type} `{Scalar T}.

(** C5: with [rate == 0] both functors add the amount to the entry of the
    dosing compartment in a copy [x0] of [x], invoke the integrator once, from
    [t0 = 0] to the single time [ii_], and return [x(i) - pred(i)] in every
    compartment.  The dd functor reads the amount at the end of [dat] and
    passes [y] as parameters; the vd functor reads the amount at the end of
    [y] and passes [y] without its last entry.  The hypotheses on the
    integrator say that it returns a state for the requested time, with an
    entry for every compartment. *)
Theorem bolus_residual
    (x : list T) (dat : list float) (dat_int : list Z) (msgs : option ostream)
    (m : machine T W E) :
  (forall (dd : SS_system_dd.t T W E) (y : list T) (rate amt : float) (v : T)
          (pred : list T) (rest : list (list T)) (w : W),
     let k := Z.to_nat (SS_system_dd.cmt_ dd - 1) in
     let x0 := <[k := plus_double v amt]> x in
     0 <= SS_system_dd.cmt_ dd - 1 ->
     dat !! k = Some rate ->
     (rate =? 0)%float = true ->
     last dat = Some amt ->
     x !! k = Some v ->
     SS_system_dd.integrator_ dd (SS_system_dd.f_ dd) x0 0%float
       [SS_system_dd.ii_ dd] y dat dat_int (world m) = (inr (pred :: rest), w) ->
     (length x <= length pred)%nat ->
     exists r,
       SS_system_dd.operator_call dd x y dat dat_int msgs m
       = (Returned r,
          {| calls := calls m ++
               [ {| call_f := SS_system_dd.f_ dd; call_y0 := x0; call_t0 := 0%float;
                    call_ts := [SS_system_dd.ii_ dd]; call_theta := y;
                    call_x_r := dat; call_x_i := dat_int |} ];
             world := w |}) /\
       length r = length x /\
       forall i xi pi, x !! i = Some xi -> pred !! i = Some pi ->
                       r !! i = Some (minus xi pi)) /\
  (forall (vd : SS_system_vd.t T W E) (y : list T) (rate : float) (amt v : T)
          (pred : list T) (rest : list (list T)) (w : W),
     let k := Z.to_nat (SS_system_vd.cmt_ vd - 1) in
     let x0 := <[k := plus v amt]> x in
     let parms := take (length y - 1) y in
     0 <= SS_system_vd.cmt_ vd - 1 ->
     dat !! k = Some rate ->
     (rate =? 0)%float = true ->
     last y = Some amt ->
     x !! k = Some v ->
     SS_system_vd.integrator_ vd (SS_system_vd.f_ vd) x0 0%float
       [SS_system_vd.ii_ vd] parms dat dat_int (world m) = (inr (pred :: rest), w) ->
     (length x <= length pred)%nat ->
     exists r,
       SS_system_vd.operator_call vd x y dat dat_int msgs m
       = (Returned r,
          {| calls := calls m ++
               [ {| call_f := SS_system_vd.f_ vd; call_y0 := x0; call_t0 := 0%float;
                    call_ts := [SS_system_vd.ii_ vd]; call_theta := parms;
                    call_x_r := dat; call_x_i := dat_int |} ];
             world := w |}) /\
       length r = length x /\
       forall i xi pi, x !! i = Some xi -> pred !! i = Some pi ->
                       r !! i = Some (minus xi pi)).
Proof.
  split.
  - intros dd y rate amt v pred rest w k x0 Hc Hrate Hz Hamt Hv Hint Hpred.
    exists (zip_with minus x pred). split; [|split].
    + rewrite dd_operator_call_eq, Hamt.
      destruct (decide (0 <= SS_system_dd.cmt_ dd - 1)); [|lia].
      fold k. rewrite Hrate. unfold regime_of. rewrite Hz.
      rewrite dd_bolus_eq.
      destruct (decide (0 <= SS_system_dd.cmt_ dd - 1)); [|lia].
      fold k. rewrite Hv. cbv zeta. fold x0. rewrite Hint.
      apply residual_loop_returns; [apply length_replicate | exact Hpred].
    + rewrite length_zip_with. lia.
    + intros i xi pi Hxi Hpi. rewrite lookup_zip_with, Hxi, Hpi. reflexivity.
  - intros vd y rate amt v pred rest w k x0 parms Hc Hrate Hz Hamt Hv Hint Hpred.
    exists (zip_with minus x pred). split; [|split].
    + rewrite vd_operator_call_eq, Hamt.
      destruct (decide (0 <= SS_system_vd.cmt_ vd - 1)); [|lia].
      fold k. rewrite Hrate. unfold regime_of. rewrite Hz.
      rewrite vd_bolus_eq.
      destruct (decide (0 <= SS_system_vd.cmt_ vd - 1)); [|lia].
      fold k. rewrite Hv. cbv zeta. fold x0 parms. rewrite Hint.
      apply residual_loop_returns; [apply length_replicate | exact Hpred].
    + rewrite length_zip_with. lia.
    + intros i xi pi Hxi Hpi. rewrite lookup_zip_with, Hxi, Hpi. reflexivity.
Qed.

(** C6: with [rate != 0] and [ii_ <= 0] both functors return what the
    right-hand side [f_] returns at time [0] on [x], and the integrator is not
    invoked: the recorded invocations are those of the start.  The dd functor
    passes the entries of [dat] but the last as rates and [y] as parameters;
    the vd functor passes [dat] and [y] without its last entry.  A failure of
    [f_] is the failure of the evaluation. *)
Theorem constant_infusion_is_rhs
    (x y : list T) (dat : list float) (dat_int : list Z) (msgs : option ostream)
    (m : machine T W E) :
  (forall (dd : SS_system_dd.t T W E) (rate amt : float),
     0 <= SS_system_dd.cmt_ dd - 1 ->
     dat !! Z.to_nat (SS_system_dd.cmt_ dd - 1) = Some rate ->
     last dat = Some amt ->
     (rate =? 0)%float = false ->
     (SS_system_dd.ii_ dd <=? 0)%float = true ->
     SS_system_dd.operator_call dd x y dat dat_int msgs m
     = match SS_system_dd.f_ dd 0%float x y (take (length dat - 1) dat) dat_int None
               (world m) with
       | (inr dxdt, w) => (Returned dxdt, {| calls := calls m; world := w |})
       | (inl e, w) => (Raised (collaborator_error e), {| calls := calls m; world := w |})
       end) /\
  (forall (vd : SS_system_vd.t T W E) (rate : float) (amt : T),
     0 <= SS_system_vd.cmt_ vd - 1 ->
     dat !! Z.to_nat (SS_system_vd.cmt_ vd - 1) = Some rate ->
     last y = Some amt ->
     (rate =? 0)%float = false ->
     (SS_system_vd.ii_ vd <=? 0)%float = true ->
     SS_system_vd.operator_call vd x y dat dat_int msgs m
     = match SS_system_vd.f_ vd 0%float x (take (length y - 1) y) dat dat_int None
               (world m) with
       | (inr dxdt, w) => (Returned dxdt, {| calls := calls m; world := w |})
       | (inl e, w) => (Raised (collaborator_error e), {| calls := calls m; world := w |})
       end).
Proof.
  split.
  - intros dd rate amt Hc Hrate Hamt Hnz Hii.
    rewrite dd_operator_call_eq, Hamt.
    destruct (decide (0 <= SS_system_dd.cmt_ dd - 1)); [|lia].
    rewrite Hrate. unfold regime_of. rewrite Hnz, (leb_not_gt _ _ Hii).
    rewrite dd_constant_eq.
    destruct (SS_system_dd.f_ dd _ _ _ _ _ _ _) as [[e|dxdt] w]; reflexivity.
  - intros vd rate amt Hc Hrate Hamt Hnz Hii.
    rewrite vd_operator_call_eq, Hamt.
    destruct (decide (0 <= SS_system_vd.cmt_ vd - 1)); [|lia].
    rewrite Hrate. unfold regime_of. rewrite Hnz, (leb_not_gt _ _ Hii).
    rewrite vd_constant_eq.
    destruct (SS_system_vd.f_ vd _ _ _ _ _ _ _) as [[e|dxdt] w]; reflexivity.
Qed.
End BolusConstant.

Lemma bolus_residual_witness :
  let x := [1; 2]%float in
  let dat := [0; 0; 4]%float in
  (exists r,
     SS_system_dd.operator_call (dd_double 10 1) x [0.5]%float dat [] None (start tt)
     = (Returned r,
        {| calls := [] ++
             [ {| call_f := rhs_double; call_y0 := [5; 2]%float; call_t0 := 0%float;
                  call_ts := [10%float]; call_theta := [0.5]%float;
                  call_x_r := dat; call_x_i := [] |} ];
           world := tt |}) /\
     length r = length x /\
     forall i xi pi, x !! i = Some xi -> [15; 12]%float !! i = Some pi ->
                     r !! i = Some (minus xi pi)) /\
  (exists r,
     SS_system_vd.operator_call (vd_double 10 1) x [0.5; 4]%float dat [] None (start tt)
     = (Returned r,
        {| calls := [] ++
             [ {| call_f := rhs_double; call_y0 := [5; 2]%float; call_t0 := 0%float;
                  call_ts := [10%float]; call_theta := [0.5]%float;
                  call_x_r := dat; call_x_i := [] |} ];
           world := tt |}) /\
     length r = length x /\
     forall i xi pi, x !! i = Some xi -> [15; 12]%float !! i = Some pi ->
                     r !! i = Some (minus xi pi)).
Proof.
  intros x dat.
  destruct (bolus_residual x dat [] None (start (T := float) (E := string) tt))
    as [Hdd Hvd].
  split.
  - exact (Hdd (dd_double 10 1) [0.5]%float 0%float 4%float 1%float
             [15; 12]%float [] tt
             ltac:(simpl; lia) eq_refl eq_refl eq_refl eq_refl eq_refl
             ltac:(simpl; lia)).
  - exact (Hvd (vd_double 10 1) [0.5; 4]%float 0%float 4%float 1%float
             [15; 12]%float [] tt
             ltac:(simpl; lia) eq_refl eq_refl eq_refl eq_refl eq_refl
             ltac:(simpl; lia)).
Defined.

Lemma constant_infusion_is_rhs_witness :
  let x := [1; 2]%float in
  SS_system_dd.operator_call (dd_double 0 1) x [0.5]%float [2; 0; 10]%float [] None
    (start tt)
  = (Returned [1; -2]%float, start tt) /\
  SS_system_vd.operator_call (vd_double 0 1) x [0.5; 1]%float [100; 0]%float [] None
    (start tt)
  = (Returned [99; -2]%float, start tt).
Proof.
  intros x.
  split.
  - exact (proj1 (constant_infusion_is_rhs x [0.5]%float [2; 0; 10]%float [] None
                    (start tt))
             (dd_double 0 1) 2%float 10%float
             ltac:(simpl; lia) eq_refl eq_refl eq_refl eq_refl).
  - exact (proj2 (constant_infusion_is_rhs x [0.5; 1]%float [100; 0]%float [] None
                    (start tt))
             (vd_double 0 1) 100%float 1%float
             ltac:(simpl; lia) eq_refl eq_refl eq_refl eq_refl).
Defined.

(** ** Evaluations that return *)

Section Returned.
Context {T W E : Type} `{Scalar T}.

(** A dd branch that returns has invoked the integrator as often as its
    regime says; its result has the size of [x], or is what [f_] returned. *)
Lemma dd_branch_returned_inv (self : SS_system_dd.t T W E) reg x y dat dat_int
    amt rate m r m' :
  SS_system_dd.branch reg self x y dat dat_int amt rate m = (Returned r, m') ->
  (exists new, calls m' = calls m ++ new /\ length new = invocations reg) /\
  (reg <> constant -> length r = length x) /\
  (reg = constant ->
   exists w, SS_system_dd.f_ self 0%float x y (take (length dat - 1) dat) dat_int None
               (world m) = (inr r, w)).
Proof.
  destruct reg.
  - rewrite dd_bolus_eq.
    destruct (decide _); [|discriminate].
    destruct (x !! _) as [v|]; [|discriminate]. cbv zeta.
    destruct (SS_system_dd.integrator_ self _ _ _ _ _ _ _ _) as [[e|[|pred rest]] w];
      try discriminate.
    intros Hloop. apply residual_loop_returned_inv in Hloop as [Hlen ->].
    rewrite length_replicate in Hlen. simpl.
    split; [eexists; split; reflexivity|]. split; [auto | discriminate].
  - rewrite dd_truncated_eq. cbv zeta.
    destruct (_ <? _)%float; [discriminate|].
    destruct (SS_system_dd.integrator_ self _ x _ _ _ _ _ _) as [[e|[|x1 rest1]] w1];
      try discriminate.
    destruct (SS_system_dd.integrator_ self _ x1 _ _ _ _ _ _) as [[e|[|pred rest2]] w2];
      try discriminate.
    intros Hloop. apply residual_loop_returned_inv in Hloop as [Hlen ->].
    rewrite length_replicate in Hlen. simpl.
    split; [eexists; split; reflexivity|]. split; [auto | discriminate].
  - rewrite dd_constant_eq.
    destruct (SS_system_dd.f_ self _ _ _ _ _ _ _) as [[e|dxdt] w] eqn:Hf;
      [discriminate|].
    intros [= <- <-]. simpl.
    split; [exists []; rewrite app_nil_r; auto|].
    split; [congruence | eauto].
Qed.

Lemma vd_branch_returned_inv (self : SS_system_vd.t T W E) reg x y dat dat_int
    amt m r m' :
  SS_system_vd.branch reg self x y dat dat_int amt m = (Returned r, m') ->
  (exists new, calls m' = calls m ++ new /\ length new = invocations reg) /\
  (reg <> constant -> length r = length x) /\
  (reg = constant ->
   exists w, SS_system_vd.f_ self 0%float x (take (length y - 1) y) dat dat_int None
               (world m) = (inr r, w)).
Proof.
  destruct reg.
  - rewrite vd_bolus_eq.
    destruct (decide _); [|discriminate].
    destruct (x !! _) as [v|]; [|discriminate]. cbv zeta.
    destruct (SS_system_vd.integrator_ self _ _ _ _ _ _ _ _) as [[e|[|pred rest]] w];
      try discriminate.
    intros Hloop. apply residual_loop_returned_inv in Hloop as [Hlen ->].
    rewrite length_replicate in Hlen. simpl.
    split; [eexists; split; reflexivity|]. split; [auto | discriminate].
  - discriminate.
  - rewrite vd_constant_eq.
    destruct (SS_system_vd.f_ self _ _ _ _ _ _ _) as [[e|dxdt] w] eqn:Hf;
      [discriminate|].
    intros [= <- <-]. simpl.
    split; [exists []; rewrite app_nil_r; auto|].
    split; [congruence | eauto].
Qed.

(** An operator that returns has reached the dispatch. *)
Lemma dd_returned_inv (self : SS_system_dd.t T W E) x y dat dat_int msgs m r m' :
  SS_system_dd.operator_call self x y dat dat_int msgs m = (Returned r, m') ->
  exists rate amt,
    dat !! Z.to_nat (SS_system_dd.cmt_ self - 1) = Some rate /\
    SS_system_dd.branch (regime_of rate (SS_system_dd.ii_ self))
      self x y dat dat_int amt rate m = (Returned r, m').
Proof.
  rewrite dd_operator_call_eq.
  destruct (last dat) as [amt|]; [|discriminate].
  destruct (decide _); [|discriminate].
  destruct (dat !! _) as [rate|]; [|discriminate].
  eauto.
Qed.

Lemma vd_returned_inv (self : SS_system_vd.t T W E) x y dat dat_int msgs m r m' :
  SS_system_vd.operator_call self x y dat dat_int msgs m = (Returned r, m') ->
  exists rate amt,
    dat !! Z.to_nat (SS_system_vd.cmt_ self - 1) = Some rate /\
    SS_system_vd.branch (regime_of rate (SS_system_vd.ii_ self))
      self x y dat dat_int amt m = (Returned r, m').
Proof.
  rewrite vd_operator_call_eq.
  destruct (last y) as [amt|]; [|discriminate].
  destruct (decide _); [|discriminate].
  destruct (dat !! _) as [rate|]; [|discriminate].
  eauto.
Qed.

(** C7, as amended: an evaluation that returns a residual has invoked the
    integrator once in the bolus regime, twice in the truncated-infusions
    regime and not at all in the constant-infusion regime; so zero, one or
    two times. *)
Theorem invocations_by_regime
    (x y : list T) (dat : list float) (dat_int : list Z) (msgs : option ostream)
    (m m' : machine T W E) (r : list T) :
  (forall dd : SS_system_dd.t T W E,
     SS_system_dd.operator_call dd x y dat dat_int msgs m = (Returned r, m') ->
     exists rate new,
       dat !! Z.to_nat (SS_system_dd.cmt_ dd - 1) = Some rate /\
       calls m' = calls m ++ new /\
       length new = invocations (regime_of rate (SS_system_dd.ii_ dd)) /\
       (length new <= 2)%nat) /\
  (forall vd : SS_system_vd.t T W E,
     SS_system_vd.operator_call vd x y dat dat_int msgs m = (Returned r, m') ->
     exists rate new,
       dat !! Z.to_nat (SS_system_vd.cmt_ vd - 1) = Some rate /\
       calls m' = calls m ++ new /\
       length new = invocations (regime_of rate (SS_system_vd.ii_ vd)) /\
       (length new <= 2)%nat).
Proof.
  split.
  - intros dd Hrun.
    apply dd_returned_inv in Hrun as (rate & amt & Hrate & Hbranch).
    apply dd_branch_returned_inv in Hbranch as ((new & Hcalls & Hnew) & _).
    exists rate, new. repeat split; auto.
    rewrite Hnew. destruct (regime_of _ _); simpl; lia.
  - intros vd Hrun.
    apply vd_returned_inv in Hrun as (rate & amt & Hrate & Hbranch).
    apply vd_branch_returned_inv in Hbranch as ((new & Hcalls & Hnew) & _).
    exists rate, new. repeat split; auto.
    rewrite Hnew. destruct (regime_of _ _); simpl; lia.
Qed.

(** C8, as amended: the residual that an evaluation returns has the size of
    the candidate state in the bolus and truncated-infusions regimes; in the
    constant-infusion regime it is what [f_] returned, so it has that size
    when [f_] returns one derivative per compartment. *)
Theorem residual_length
    (x y : list T) (dat : list float) (dat_int : list Z) (msgs : option ostream)
    (m m' : machine T W E) (r : list T) :
  (forall dd : SS_system_dd.t T W E,
     SS_system_dd.operator_call dd x y dat dat_int msgs m = (Returned r, m') ->
     (length_preserving (SS_system_dd.f_ dd) -> length r = length x) /\
     exists rate,
       dat !! Z.to_nat (SS_system_dd.cmt_ dd - 1) = Some rate /\
       (regime_of rate (SS_system_dd.ii_ dd) <> constant -> length r = length x) /\
       (regime_of rate (SS_system_dd.ii_ dd) = constant ->
        exists w, SS_system_dd.f_ dd 0%float x y (take (length dat - 1) dat) dat_int
                    None (world m) = (inr r, w))) /\
  (forall vd : SS_system_vd.t T W E,
     SS_system_vd.operator_call vd x y dat dat_int msgs m = (Returned r, m') ->
     (length_preserving (SS_system_vd.f_ vd) -> length r = length x) /\
     exists rate,
       dat !! Z.to_nat (SS_system_vd.cmt_ vd - 1) = Some rate /\
       (regime_of rate (SS_system_vd.ii_ vd) <> constant -> length r = length x) /\
       (regime_of rate (SS_system_vd.ii_ vd) = constant ->
        exists w, SS_system_vd.f_ vd 0%float x (take (length y - 1) y) dat dat_int
                    None (world m) = (inr r, w))).
Proof.
  split.
  - intros dd Hrun.
    apply dd_returned_inv in Hrun as (rate & amt & Hrate & Hbranch).
    apply dd_branch_returned_inv in Hbranch as (_ & Hsize & Hrhs).
    split; [|eauto].
    intros Hf. destruct (regime_of rate (SS_system_dd.ii_ dd)) eqn:Hreg;
      try (apply Hsize; discriminate).
    destruct (Hrhs eq_refl) as [w Hw]. apply (Hf _ _ _ _ _ _ _ _ _ Hw).
  - intros vd Hrun.
    apply vd_returned_inv in Hrun as (rate & amt & Hrate & Hbranch).
    apply vd_branch_returned_inv in Hbranch as (_ & Hsize & Hrhs).
    split; [|eauto].
    intros Hf. destruct (regime_of rate (SS_system_vd.ii_ vd)) eqn:Hreg;
      try (apply Hsize; discriminate).
    destruct (Hrhs eq_refl) as [w Hw]. apply (Hf _ _ _ _ _ _ _ _ _ Hw).
Qed.
End Returned.

(** ** Determinism *)

Section Agreement.
Context {T W E : Type}.

Lemma agree_ret {A} (a : A) : agree (ret a : M T W E A).
Proof. intros m1 m2. split; [reflexivity|]. exists []. rewrite !app_nil_r. auto. Qed.

Lemma agree_throw {A} (e : exn E) : agree (throw e : M T W E A).
Proof. intros m1 m2. split; [reflexivity|]. exists []. rewrite !app_nil_r. auto. Qed.

Lemma agree_undefined {A} : agree (undefined : M T W E A).
Proof. intros m1 m2. split; [reflexivity|]. exists []. rewrite !app_nil_r. auto. Qed.

Lemma agree_bind {A B} (c : M T W E A) (k : A -> M T W E B) :
  agree c -> (forall a, agree (k a)) -> agree (bind c k).
Proof.
  intros Hc Hk m1 m2. destruct (Hc m1 m2) as (Ho & new & H1 & H2).
  unfold bind. destruct (c m1) as [o1 m1'], (c m2) as [o2 m2']. simpl in *. subst o2.
  destruct o1 as [a | e |]; try (split; [reflexivity | eauto]).
  destruct (Hk a m1' m2') as (Ho' & new' & H1' & H2').
  split; [exact Ho'|]. exists (new ++ new').
  rewrite H1', H2', H1, H2, <- !app_assoc. auto.
Qed.

Lemma agree_at_index {A} (v : list A) i : agree (at_index v i : M T W E A).
Proof. unfold at_index. destruct (v !! i); [apply agree_ret | apply agree_undefined]. Qed.

Lemma agree_assign {A} (v : list A) i a : agree (assign v i a : M T W E (list A)).
Proof. unfold assign. destruct (decide _); [apply agree_ret | apply agree_undefined]. Qed.

Lemma agree_at_int {A} (v : list A) i : agree (at_int v i : M T W E A).
Proof. unfold at_int. destruct (decide _); [apply agree_at_index | apply agree_undefined]. Qed.

Lemma agree_assign_int {A} (v : list A) i a : agree (assign_int v i a : M T W E (list A)).
Proof.
  unfold assign_int. destruct (decide _); [apply agree_assign | apply agree_undefined].
Qed.

Lemma agree_vector_size_minus_one {A B} (dat : list A) (b : B) :
  agree (vector_size_minus_one dat b : M T W E (list B)).
Proof. destruct dat; [apply agree_throw | apply agree_ret]. Qed.

Lemma agree_for_loop {S} (body : nat -> S -> M T W E S) count :
  (forall i s, agree (body i s)) -> forall i s, agree (for_loop count i body s).
Proof.
  intros Hbody. induction count as [|count IH]; intros i s; simpl.
  - apply agree_ret.
  - apply agree_bind; [apply Hbody | intros s'; apply IH].
Qed.

Lemma agree_copy_loop {A} (src dst : list A) : agree (copy_loop src dst : M T W E (list A)).
Proof.
  apply agree_for_loop. intros i s.
  apply agree_bind; [apply agree_at_index | intros a; apply agree_assign].
Qed.

Lemma agree_residual_loop `{Scalar T} (x pred result : list T) :
  agree (residual_loop x pred result : M T W E (list T)).
Proof.
  apply agree_for_loop. intros i s.
  apply agree_bind; [apply agree_at_index | intros xi].
  apply agree_bind; [apply agree_at_index | intros pi]. apply agree_assign.
Qed.

Lemma agree_invoke_integrator (integrator : integrator_structure T W E) f
    y0 t0 ts theta x_r x_i :
  deterministic_integrator integrator f ->
  agree (invoke_integrator integrator f y0 t0 ts theta x_r x_i).
Proof.
  intros Hdet m1 m2. unfold invoke_integrator.
  specialize (Hdet y0 t0 ts theta x_r x_i (world m1) (world m2)).
  destruct (integrator f y0 t0 ts theta x_r x_i (world m1)) as [[e1|s1] w1],
           (integrator f y0 t0 ts theta x_r x_i (world m2)) as [[e2|s2] w2];
    simpl in *; try discriminate; inversion Hdet; subst;
    (split; [reflexivity | eauto]).
Qed.

Lemma agree_invoke_rhs (f : F T W E) t x parms rate x_i msgs :
  deterministic_rhs f -> agree (invoke_rhs f t x parms rate x_i msgs).
Proof.
  intros Hdet m1 m2. unfold invoke_rhs.
  specialize (Hdet t x parms rate x_i msgs (world m1) (world m2)).
  destruct (f t x parms rate x_i msgs (world m1)) as [[e1|d1] w1],
           (f t x parms rate x_i msgs (world m2)) as [[e2|d2] w2];
    simpl in *; try discriminate; inversion Hdet; subst;
    (split; [reflexivity | exists []; rewrite !app_nil_r; auto]).
Qed.
End Agreement.

Section Determinism.
Context {T W E : Type} `{Scalar T}.

Lemma dd_operator_call_agree (self : SS_system_dd.t T W E) x y dat dat_int msgs :
  deterministic_rhs (SS_system_dd.f_ self) ->
  deterministic_integrator (SS_system_dd.integrator_ self) (SS_system_dd.f_ self) ->
  agree (SS_system_dd.operator_call self x y dat dat_int msgs).
Proof.
  intros Hf Hint.
  unfold SS_system_dd.operator_call, SS_system_dd.bolus_dose,
    SS_system_dd.truncated_infusions, SS_system_dd.constant_infusion.
  cbv zeta.
  repeat lazymatch goal with
    | |- agree (bind _ _) => apply agree_bind; [|intros ?]
    | |- agree (if ?b then _ else _) => destruct b
    | |- agree (ret _) => apply agree_ret
    | |- agree (throw _) => apply agree_throw
    | |- agree (at_index _ _) => apply agree_at_index
    | |- agree (at_int _ _) => apply agree_at_int
    | |- agree (assign _ _ _) => apply agree_assign
    | |- agree (assign_int _ _ _) => apply agree_assign_int
    | |- agree (vector_size_minus_one _ _) => apply agree_vector_size_minus_one
    | |- agree (copy_loop _ _) => apply agree_copy_loop
    | |- agree (residual_loop _ _ _) => apply agree_residual_loop
    | |- agree (invoke_integrator _ _ _ _ _ _ _ _) =>
        apply agree_invoke_integrator; assumption
    | |- agree (invoke_rhs _ _ _ _ _ _ _) => apply agree_invoke_rhs; assumption
    end.
Qed.

Lemma vd_operator_call_agree (self : SS_system_vd.t T W E) x y dat dat_int msgs :
  deterministic_rhs (SS_system_vd.f_ self) ->
  deterministic_integrator (SS_system_vd.integrator_ self) (SS_system_vd.f_ self) ->
  agree (SS_system_vd.operator_call self x y dat dat_int msgs).
Proof.
  intros Hf Hint.
  unfold SS_system_vd.operator_call, SS_system_vd.bolus_dose,
    SS_system_vd.truncated_infusions, SS_system_vd.constant_infusion.
  cbv zeta.
  repeat lazymatch goal with
    | |- agree (bind _ _) => apply agree_bind; [|intros ?]
    | |- agree (if ?b then _ else _) => destruct b
    | |- agree (ret _) => apply agree_ret
    | |- agree (throw _) => apply agree_throw
    | |- agree (at_index _ _) => apply agree_at_index
    | |- agree (at_int _ _) => apply agree_at_int
    | |- agree (assign _ _ _) => apply agree_assign
    | |- agree (assign_int _ _ _) => apply agree_assign_int
    | |- agree (vector_size_minus_one _ _) => apply agree_vector_size_minus_one
    | |- agree (copy_loop _ _) => apply agree_copy_loop
    | |- agree (residual_loop _ _ _) => apply agree_residual_loop
    | |- agree (invoke_integrator _ _ _ _ _ _ _ _) =>
        apply agree_invoke_integrator; assumption
    | |- agree (invoke_rhs _ _ _ _ _ _ _) => apply agree_invoke_rhs; assumption
    end.
Qed.
End Determinism.

(** ** The functor and the arguments after an evaluation *)

Section StoreSteps.
Context {T W E : Type} `{Scalar T}.

Lemma update_eq {K V} `{EqDecision K} (k : K) (v : V) (vars : K -> V) :
  Activation.update k v vars k = v.
Proof. unfold Activation.update. destruct (decide (k = k)); congruence. Qed.

Lemma update_ne {K V} `{EqDecision K} (k k' : K) (v : V) (vars : K -> V) :
  k' <> k -> Activation.update k v vars k' = vars k'.
Proof.
  unfold Activation.update. intros Hne. destruct (decide (k' = k)); congruence.
Qed.

Lemma bind_ext {A B} (c : M T W E A) (k k' : A -> M T W E B) m :
  (forall a m', k a m' = k' a m') -> bind c k m = bind c k' m.
Proof. intros Hk. unfold bind. destruct (c m) as [[a | e |] m']; auto. Qed.

Lemma bind_assoc {A B C} (c : M T W E A) (k1 : A -> M T W E B)
    (k2 : B -> M T W E C) m :
  bind (bind c k1) k2 m = bind c (fun a => bind (k1 a) k2) m.
Proof. unfold bind. destruct (c m) as [[a | e |] m']; reflexivity. Qed.

Lemma bind_ret_l {A B} (a : A) (k : A -> M T W E B) m : bind (ret a) k m = k a m.
Proof. reflexivity. Qed.

Lemma bind_ret_r {A} (c : M T W E A) (k : A -> M T W E A) m :
  (forall a m', k a m' = (Returned a, m')) -> bind c k m = c m.
Proof. intros Hk. unfold bind. destruct (c m) as [[a | e |] m']; auto. Qed.

(** An assignment followed by the rest of a block is, for the caller, the
    expression bound to the rest of the block on the written store. *)
Lemma observed_assign {A V}
    (set : V -> Activation.store T W E -> Activation.store T W E) e rest
    (k : Activation.exec T W E A) s m :
  Activation.observed
    (Activation.sequence (Activation.block (Activation.assign_to set e :: rest)) k s m)
  = bind (e s)
      (fun v m' =>
         Activation.observed
           (Activation.sequence (Activation.block rest) k (set v s) m')) m.
Proof.
  unfold Activation.observed, Activation.block. cbn [foldr].
  unfold Activation.sequence, Activation.assign_to, bind.
  destruct (e s m) as [[v | e' |] m']; reflexivity.
Qed.

Lemma observed_return {A} (e : Activation.store T W E -> A) s m :
  Activation.observed
    (Activation.sequence (Activation.block []) (Activation.return_ e) s m)
  = (Returned (e s), m).
Proof. reflexivity. Qed.

Lemma sequence_if_else {A} c s1 s2 rest (k : Activation.exec T W E A) s m :
  Activation.sequence (Activation.block (Activation.if_else c s1 s2 :: rest)) k s m
  = if c s then Activation.sequence (Activation.block (s1 :: rest)) k s m
    else Activation.sequence (Activation.block (s2 :: rest)) k s m.
Proof.
  unfold Activation.block. cbn [foldr].
  unfold Activation.sequence, Activation.if_else.
  destruct (c s); reflexivity.
Qed.

Lemma sequence_block {A} l rest (k : Activation.exec T W E A) s m :
  Activation.sequence (Activation.block (Activation.block l :: rest)) k s m
  = Activation.sequence (Activation.block (l ++ rest)) k s m.
Proof.
  revert s m. induction l as [|st l IH]; intros s m.
  - reflexivity.
  - unfold Activation.block in *. cbn [foldr app] in *.
    unfold Activation.sequence in *.
    destruct (st s m) as [[[[] | e |] s'] m']; try reflexivity. apply IH.
Qed.

Lemma sequence_skip {A} rest (k : Activation.exec T W E A) s m :
  Activation.sequence (Activation.block (Activation.skip :: rest)) k s m
  = Activation.sequence (Activation.block rest) k s m.
Proof. reflexivity. Qed.

(** The two embeddings agree: what the caller sees of the statements run on
    a store is what [operator_call] gives on the functor and the arguments
    that the store holds, whatever the locals hold at the start. *)
Lemma dd_operator_observed (s : Activation.store T W E) (m : machine T W E) :
  Activation.observed (Activation.dd_operator s m)
  = SS_system_dd.operator_call (Activation.dd_functor s)
      (Activation.scalar_vectors s Activation.x)
      (Activation.scalar_vectors s Activation.y)
      (Activation.double_vectors s Activation.dat)
      (Activation.int_vectors s Activation.dat_int) (Activation.msgs s) m.
Proof.
  destruct s as [f integ ms d i dv iv sc sv].
  unfold Activation.dd_operator, Activation.dd_functor.
  unfold SS_system_dd.operator_call, SS_system_dd.bolus_dose,
    SS_system_dd.truncated_infusions, SS_system_dd.constant_infusion.
  cbv zeta.
  cbn [SS_system_dd.f_ SS_system_dd.ii_ SS_system_dd.cmt_ SS_system_dd.integrator_].
  (cbn [Activation.doubles Activation.ints Activation.double_vectors Activation.int_vectors Activation.scalars Activation.scalar_vectors Activation.f_ Activation.integrator_ Activation.msgs Activation.set_double Activation.set_double_vector Activation.set_scalar Activation.set_scalar_vector app]; repeat (first [rewrite update_eq | rewrite update_ne by discriminate])).
  do 9 (rewrite observed_assign; (cbn [Activation.doubles Activation.ints Activation.double_vectors Activation.int_vectors Activation.scalars Activation.scalar_vectors Activation.f_ Activation.integrator_ Activation.msgs Activation.set_double Activation.set_double_vector Activation.set_scalar Activation.set_scalar_vector app]; repeat (first [rewrite update_eq | rewrite update_ne by discriminate]));
   first
     [ rewrite bind_ret_l; (cbn [Activation.doubles Activation.ints Activation.double_vectors Activation.int_vectors Activation.scalars Activation.scalar_vectors Activation.f_ Activation.integrator_ Activation.msgs Activation.set_double Activation.set_double_vector Activation.set_scalar Activation.set_scalar_vector app]; repeat (first [rewrite update_eq | rewrite update_ne by discriminate]))
     | rewrite bind_assoc; apply bind_ext; intros ? ?; apply bind_ext; intros ? ?;
       (cbn [Activation.doubles Activation.ints Activation.double_vectors Activation.int_vectors Activation.scalars Activation.scalar_vectors Activation.f_ Activation.integrator_ Activation.msgs Activation.set_double Activation.set_double_vector Activation.set_scalar Activation.set_scalar_vector app]; repeat (first [rewrite update_eq | rewrite update_ne by discriminate]))
     | apply bind_ext; intros ? ?; (cbn [Activation.doubles Activation.ints Activation.double_vectors Activation.int_vectors Activation.scalars Activation.scalar_vectors Activation.f_ Activation.integrator_ Activation.msgs Activation.set_double Activation.set_double_vector Activation.set_scalar Activation.set_scalar_vector app]; repeat (first [rewrite update_eq | rewrite update_ne by discriminate])) ]).
  rewrite sequence_if_else. (cbn [Activation.doubles Activation.ints Activation.double_vectors Activation.int_vectors Activation.scalars Activation.scalar_vectors Activation.f_ Activation.integrator_ Activation.msgs Activation.set_double Activation.set_double_vector Activation.set_scalar Activation.set_scalar_vector app]; repeat (first [rewrite update_eq | rewrite update_ne by discriminate])).
  destruct (_ =? _)%float.
  - rewrite sequence_block. cbn [app].
    do 3 (rewrite observed_assign; (cbn [Activation.doubles Activation.ints Activation.double_vectors Activation.int_vectors Activation.scalars Activation.scalar_vectors Activation.f_ Activation.integrator_ Activation.msgs Activation.set_double Activation.set_double_vector Activation.set_scalar Activation.set_scalar_vector app]; repeat (first [rewrite update_eq | rewrite update_ne by discriminate]));
   first
     [ rewrite bind_ret_l; (cbn [Activation.doubles Activation.ints Activation.double_vectors Activation.int_vectors Activation.scalars Activation.scalar_vectors Activation.f_ Activation.integrator_ Activation.msgs Activation.set_double Activation.set_double_vector Activation.set_scalar Activation.set_scalar_vector app]; repeat (first [rewrite update_eq | rewrite update_ne by discriminate]))
     | rewrite bind_assoc; apply bind_ext; intros ? ?; apply bind_ext; intros ? ?;
       (cbn [Activation.doubles Activation.ints Activation.double_vectors Activation.int_vectors Activation.scalars Activation.scalar_vectors Activation.f_ Activation.integrator_ Activation.msgs Activation.set_double Activation.set_double_vector Activation.set_scalar Activation.set_scalar_vector app]; repeat (first [rewrite update_eq | rewrite update_ne by discriminate]))
     | apply bind_ext; intros ? ?; (cbn [Activation.doubles Activation.ints Activation.double_vectors Activation.int_vectors Activation.scalars Activation.scalar_vectors Activation.f_ Activation.integrator_ Activation.msgs Activation.set_double Activation.set_double_vector Activation.set_scalar Activation.set_scalar_vector app]; repeat (first [rewrite update_eq | rewrite update_ne by discriminate])) ]).
    (rewrite observed_assign; (cbn [Activation.doubles Activation.ints Activation.double_vectors Activation.int_vectors Activation.scalars Activation.scalar_vectors Activation.f_ Activation.integrator_ Activation.msgs Activation.set_double Activation.set_double_vector Activation.set_scalar Activation.set_scalar_vector app]; repeat (first [rewrite update_eq | rewrite update_ne by discriminate]));
   first
     [ rewrite bind_ret_l, observed_return; (cbn [Activation.doubles Activation.ints Activation.double_vectors Activation.int_vectors Activation.scalars Activation.scalar_vectors Activation.f_ Activation.integrator_ Activation.msgs Activation.set_double Activation.set_double_vector Activation.set_scalar Activation.set_scalar_vector app]; repeat (first [rewrite update_eq | rewrite update_ne by discriminate])); reflexivity
     | rewrite bind_assoc; apply bind_ext; intros ? ?;
       apply bind_ret_r; intros ? ?; rewrite observed_return; (cbn [Activation.doubles Activation.ints Activation.double_vectors Activation.int_vectors Activation.scalars Activation.scalar_vectors Activation.f_ Activation.integrator_ Activation.msgs Activation.set_double Activation.set_double_vector Activation.set_scalar Activation.set_scalar_vector app]; repeat (first [rewrite update_eq | rewrite update_ne by discriminate])); reflexivity
     | apply bind_ret_r; intros ? ?; rewrite observed_return; (cbn [Activation.doubles Activation.ints Activation.double_vectors Activation.int_vectors Activation.scalars Activation.scalar_vectors Activation.f_ Activation.integrator_ Activation.msgs Activation.set_double Activation.set_double_vector Activation.set_scalar Activation.set_scalar_vector app]; repeat (first [rewrite update_eq | rewrite update_ne by discriminate])); reflexivity ]).
  - rewrite sequence_if_else. (cbn [Activation.doubles Activation.ints Activation.double_vectors Activation.int_vectors Activation.scalars Activation.scalar_vectors Activation.f_ Activation.integrator_ Activation.msgs Activation.set_double Activation.set_double_vector Activation.set_scalar Activation.set_scalar_vector app]; repeat (first [rewrite update_eq | rewrite update_ne by discriminate])).
    destruct (0 <? _)%float.
    + rewrite sequence_block. cbn [app].
      do 1 (rewrite observed_assign; (cbn [Activation.doubles Activation.ints Activation.double_vectors Activation.int_vectors Activation.scalars Activation.scalar_vectors Activation.f_ Activation.integrator_ Activation.msgs Activation.set_double Activation.set_double_vector Activation.set_scalar Activation.set_scalar_vector app]; repeat (first [rewrite update_eq | rewrite update_ne by discriminate]));
   first
     [ rewrite bind_ret_l; (cbn [Activation.doubles Activation.ints Activation.double_vectors Activation.int_vectors Activation.scalars Activation.scalar_vectors Activation.f_ Activation.integrator_ Activation.msgs Activation.set_double Activation.set_double_vector Activation.set_scalar Activation.set_scalar_vector app]; repeat (first [rewrite update_eq | rewrite update_ne by discriminate]))
     | rewrite bind_assoc; apply bind_ext; intros ? ?; apply bind_ext; intros ? ?;
       (cbn [Activation.doubles Activation.ints Activation.double_vectors Activation.int_vectors Activation.scalars Activation.scalar_vectors Activation.f_ Activation.integrator_ Activation.msgs Activation.set_double Activation.set_double_vector Activation.set_scalar Activation.set_scalar_vector app]; repeat (first [rewrite update_eq | rewrite update_ne by discriminate]))
     | apply bind_ext; intros ? ?; (cbn [Activation.doubles Activation.ints Activation.double_vectors Activation.int_vectors Activation.scalars Activation.scalar_vectors Activation.f_ Activation.integrator_ Activation.msgs Activation.set_double Activation.set_double_vector Activation.set_scalar Activation.set_scalar_vector app]; repeat (first [rewrite update_eq | rewrite update_ne by discriminate])) ]).
      rewrite sequence_if_else. (cbn [Activation.doubles Activation.ints Activation.double_vectors Activation.int_vectors Activation.scalars Activation.scalar_vectors Activation.f_ Activation.integrator_ Activation.msgs Activation.set_double Activation.set_double_vector Activation.set_scalar Activation.set_scalar_vector app]; repeat (first [rewrite update_eq | rewrite update_ne by discriminate])).
      destruct (_ <? _)%float; [reflexivity|].
      rewrite sequence_skip, bind_ret_l.
      do 6 (rewrite observed_assign; (cbn [Activation.doubles Activation.ints Activation.double_vectors Activation.int_vectors Activation.scalars Activation.scalar_vectors Activation.f_ Activation.integrator_ Activation.msgs Activation.set_double Activation.set_double_vector Activation.set_scalar Activation.set_scalar_vector app]; repeat (first [rewrite update_eq | rewrite update_ne by discriminate]));
   first
     [ rewrite bind_ret_l; (cbn [Activation.doubles Activation.ints Activation.double_vectors Activation.int_vectors Activation.scalars Activation.scalar_vectors Activation.f_ Activation.integrator_ Activation.msgs Activation.set_double Activation.set_double_vector Activation.set_scalar Activation.set_scalar_vector app]; repeat (first [rewrite update_eq | rewrite update_ne by discriminate]))
     | rewrite bind_assoc; apply bind_ext; intros ? ?; apply bind_ext; intros ? ?;
       (cbn [Activation.doubles Activation.ints Activation.double_vectors Activation.int_vectors Activation.scalars Activation.scalar_vectors Activation.f_ Activation.integrator_ Activation.msgs Activation.set_double Activation.set_double_vector Activation.set_scalar Activation.set_scalar_vector app]; repeat (first [rewrite update_eq | rewrite update_ne by discriminate]))
     | apply bind_ext; intros ? ?; (cbn [Activation.doubles Activation.ints Activation.double_vectors Activation.int_vectors Activation.scalars Activation.scalar_vectors Activation.f_ Activation.integrator_ Activation.msgs Activation.set_double Activation.set_double_vector Activation.set_scalar Activation.set_scalar_vector app]; repeat (first [rewrite update_eq | rewrite update_ne by discriminate])) ]).
      (rewrite observed_assign; (cbn [Activation.doubles Activation.ints Activation.double_vectors Activation.int_vectors Activation.scalars Activation.scalar_vectors Activation.f_ Activation.integrator_ Activation.msgs Activation.set_double Activation.set_double_vector Activation.set_scalar Activation.set_scalar_vector app]; repeat (first [rewrite update_eq | rewrite update_ne by discriminate]));
   first
     [ rewrite bind_ret_l, observed_return; (cbn [Activation.doubles Activation.ints Activation.double_vectors Activation.int_vectors Activation.scalars Activation.scalar_vectors Activation.f_ Activation.integrator_ Activation.msgs Activation.set_double Activation.set_double_vector Activation.set_scalar Activation.set_scalar_vector app]; repeat (first [rewrite update_eq | rewrite update_ne by discriminate])); reflexivity
     | rewrite bind_assoc; apply bind_ext; intros ? ?;
       apply bind_ret_r; intros ? ?; rewrite observed_return; (cbn [Activation.doubles Activation.ints Activation.double_vectors Activation.int_vectors Activation.scalars Activation.scalar_vectors Activation.f_ Activation.integrator_ Activation.msgs Activation.set_double Activation.set_double_vector Activation.set_scalar Activation.set_scalar_vector app]; repeat (first [rewrite update_eq | rewrite update_ne by discriminate])); reflexivity
     | apply bind_ret_r; intros ? ?; rewrite observed_return; (cbn [Activation.doubles Activation.ints Activation.double_vectors Activation.int_vectors Activation.scalars Activation.scalar_vectors Activation.f_ Activation.integrator_ Activation.msgs Activation.set_double Activation.set_double_vector Activation.set_scalar Activation.set_scalar_vector app]; repeat (first [rewrite update_eq | rewrite update_ne by discriminate])); reflexivity ]).
    + rewrite sequence_block. cbn [app].
      do 1 (rewrite observed_assign; (cbn [Activation.doubles Activation.ints Activation.double_vectors Activation.int_vectors Activation.scalars Activation.scalar_vectors Activation.f_ Activation.integrator_ Activation.msgs Activation.set_double Activation.set_double_vector Activation.set_scalar Activation.set_scalar_vector app]; repeat (first [rewrite update_eq | rewrite update_ne by discriminate]));
   first
     [ rewrite bind_ret_l; (cbn [Activation.doubles Activation.ints Activation.double_vectors Activation.int_vectors Activation.scalars Activation.scalar_vectors Activation.f_ Activation.integrator_ Activation.msgs Activation.set_double Activation.set_double_vector Activation.set_scalar Activation.set_scalar_vector app]; repeat (first [rewrite update_eq | rewrite update_ne by discriminate]))
     | rewrite bind_assoc; apply bind_ext; intros ? ?; apply bind_ext; intros ? ?;
       (cbn [Activation.doubles Activation.ints Activation.double_vectors Activation.int_vectors Activation.scalars Activation.scalar_vectors Activation.f_ Activation.integrator_ Activation.msgs Activation.set_double Activation.set_double_vector Activation.set_scalar Activation.set_scalar_vector app]; repeat (first [rewrite update_eq | rewrite update_ne by discriminate]))
     | apply bind_ext; intros ? ?; (cbn [Activation.doubles Activation.ints Activation.double_vectors Activation.int_vectors Activation.scalars Activation.scalar_vectors Activation.f_ Activation.integrator_ Activation.msgs Activation.set_double Activation.set_double_vector Activation.set_scalar Activation.set_scalar_vector app]; repeat (first [rewrite update_eq | rewrite update_ne by discriminate])) ]).
      (rewrite observed_assign; (cbn [Activation.doubles Activation.ints Activation.double_vectors Activation.int_vectors Activation.scalars Activation.scalar_vectors Activation.f_ Activation.integrator_ Activation.msgs Activation.set_double Activation.set_double_vector Activation.set_scalar Activation.set_scalar_vector app]; repeat (first [rewrite update_eq | rewrite update_ne by discriminate]));
   first
     [ rewrite bind_ret_l, observed_return; (cbn [Activation.doubles Activation.ints Activation.double_vectors Activation.int_vectors Activation.scalars Activation.scalar_vectors Activation.f_ Activation.integrator_ Activation.msgs Activation.set_double Activation.set_double_vector Activation.set_scalar Activation.set_scalar_vector app]; repeat (first [rewrite update_eq | rewrite update_ne by discriminate])); reflexivity
     | rewrite bind_assoc; apply bind_ext; intros ? ?;
       apply bind_ret_r; intros ? ?; rewrite observed_return; (cbn [Activation.doubles Activation.ints Activation.double_vectors Activation.int_vectors Activation.scalars Activation.scalar_vectors Activation.f_ Activation.integrator_ Activation.msgs Activation.set_double Activation.set_double_vector Activation.set_scalar Activation.set_scalar_vector app]; repeat (first [rewrite update_eq | rewrite update_ne by discriminate])); reflexivity
     | apply bind_ret_r; intros ? ?; rewrite observed_return; (cbn [Activation.doubles Activation.ints Activation.double_vectors Activation.int_vectors Activation.scalars Activation.scalar_vectors Activation.f_ Activation.integrator_ Activation.msgs Activation.set_double Activation.set_double_vector Activation.set_scalar Activation.set_scalar_vector app]; repeat (first [rewrite update_eq | rewrite update_ne by discriminate])); reflexivity ]).
Qed.

Lemma vd_operator_observed (s : Activation.store T W E) (m : machine T W E) :
  Activation.observed (Activation.vd_operator s m)
  = SS_system_vd.operator_call (Activation.vd_functor s)
      (Activation.scalar_vectors s Activation.x)
      (Activation.scalar_vectors s Activation.y)
      (Activation.double_vectors s Activation.dat)
      (Activation.int_vectors s Activation.dat_int) (Activation.msgs s) m.
Proof.
  destruct s as [f integ ms d i dv iv sc sv].
  unfold Activation.vd_operator, Activation.vd_functor.
  unfold SS_system_vd.operator_call, SS_system_vd.bolus_dose,
    SS_system_vd.truncated_infusions, SS_system_vd.constant_infusion.
  cbv zeta.
  cbn [SS_system_vd.f_ SS_system_vd.ii_ SS_system_vd.cmt_ SS_system_vd.integrator_].
  (cbn [Activation.doubles Activation.ints Activation.double_vectors Activation.int_vectors Activation.scalars Activation.scalar_vectors Activation.f_ Activation.integrator_ Activation.msgs Activation.set_double Activation.set_double_vector Activation.set_scalar Activation.set_scalar_vector app]; repeat (first [rewrite update_eq | rewrite update_ne by discriminate])).
  do 11 (rewrite observed_assign; (cbn [Activation.doubles Activation.ints Activation.double_vectors Activation.int_vectors Activation.scalars Activation.scalar_vectors Activation.f_ Activation.integrator_ Activation.msgs Activation.set_double Activation.set_double_vector Activation.set_scalar Activation.set_scalar_vector app]; repeat (first [rewrite update_eq | rewrite update_ne by discriminate]));
   first
     [ rewrite bind_ret_l; (cbn [Activation.doubles Activation.ints Activation.double_vectors Activation.int_vectors Activation.scalars Activation.scalar_vectors Activation.f_ Activation.integrator_ Activation.msgs Activation.set_double Activation.set_double_vector Activation.set_scalar Activation.set_scalar_vector app]; repeat (first [rewrite update_eq | rewrite update_ne by discriminate]))
     | rewrite bind_assoc; apply bind_ext; intros ? ?; apply bind_ext; intros ? ?;
       (cbn [Activation.doubles Activation.ints Activation.double_vectors Activation.int_vectors Activation.scalars Activation.scalar_vectors Activation.f_ Activation.integrator_ Activation.msgs Activation.set_double Activation.set_double_vector Activation.set_scalar Activation.set_scalar_vector app]; repeat (first [rewrite update_eq | rewrite update_ne by discriminate]))
     | apply bind_ext; intros ? ?; (cbn [Activation.doubles Activation.ints Activation.double_vectors Activation.int_vectors Activation.scalars Activation.scalar_vectors Activation.f_ Activation.integrator_ Activation.msgs Activation.set_double Activation.set_double_vector Activation.set_scalar Activation.set_scalar_vector app]; repeat (first [rewrite update_eq | rewrite update_ne by discriminate])) ]).
  rewrite sequence_if_else. (cbn [Activation.doubles Activation.ints Activation.double_vectors Activation.int_vectors Activation.scalars Activation.scalar_vectors Activation.f_ Activation.integrator_ Activation.msgs Activation.set_double Activation.set_double_vector Activation.set_scalar Activation.set_scalar_vector app]; repeat (first [rewrite update_eq | rewrite update_ne by discriminate])).
  destruct (_ =? _)%float.
  - rewrite sequence_block. cbn [app].
    do 3 (rewrite observed_assign; (cbn [Activation.doubles Activation.ints Activation.double_vectors Activation.int_vectors Activation.scalars Activation.scalar_vectors Activation.f_ Activation.integrator_ Activation.msgs Activation.set_double Activation.set_double_vector Activation.set_scalar Activation.set_scalar_vector app]; repeat (first [rewrite update_eq | rewrite update_ne by discriminate]));
   first
     [ rewrite bind_ret_l; (cbn [Activation.doubles Activation.ints Activation.double_vectors Activation.int_vectors Activation.scalars Activation.scalar_vectors Activation.f_ Activation.integrator_ Activation.msgs Activation.set_double Activation.set_double_vector Activation.set_scalar Activation.set_scalar_vector app]; repeat (first [rewrite update_eq | rewrite update_ne by discriminate]))
     | rewrite bind_assoc; apply bind_ext; intros ? ?; apply bind_ext; intros ? ?;
       (cbn [Activation.doubles Activation.ints Activation.double_vectors Activation.int_vectors Activation.scalars Activation.scalar_vectors Activation.f_ Activation.integrator_ Activation.msgs Activation.set_double Activation.set_double_vector Activation.set_scalar Activation.set_scalar_vector app]; repeat (first [rewrite update_eq | rewrite update_ne by discriminate]))
     | apply bind_ext; intros ? ?; (cbn [Activation.doubles Activation.ints Activation.double_vectors Activation.int_vectors Activation.scalars Activation.scalar_vectors Activation.f_ Activation.integrator_ Activation.msgs Activation.set_double Activation.set_double_vector Activation.set_scalar Activation.set_scalar_vector app]; repeat (first [rewrite update_eq | rewrite update_ne by discriminate])) ]).
    (rewrite observed_assign; (cbn [Activation.doubles Activation.ints Activation.double_vectors Activation.int_vectors Activation.scalars Activation.scalar_vectors Activation.f_ Activation.integrator_ Activation.msgs Activation.set_double Activation.set_double_vector Activation.set_scalar Activation.set_scalar_vector app]; repeat (first [rewrite update_eq | rewrite update_ne by discriminate]));
   first
     [ rewrite bind_ret_l, observed_return; (cbn [Activation.doubles Activation.ints Activation.double_vectors Activation.int_vectors Activation.scalars Activation.scalar_vectors Activation.f_ Activation.integrator_ Activation.msgs Activation.set_double Activation.set_double_vector Activation.set_scalar Activation.set_scalar_vector app]; repeat (first [rewrite update_eq | rewrite update_ne by discriminate])); reflexivity
     | rewrite bind_assoc; apply bind_ext; intros ? ?;
       apply bind_ret_r; intros ? ?; rewrite observed_return; (cbn [Activation.doubles Activation.ints Activation.double_vectors Activation.int_vectors Activation.scalars Activation.scalar_vectors Activation.f_ Activation.integrator_ Activation.msgs Activation.set_double Activation.set_double_vector Activation.set_scalar Activation.set_scalar_vector app]; repeat (first [rewrite update_eq | rewrite update_ne by discriminate])); reflexivity
     | apply bind_ret_r; intros ? ?; rewrite observed_return; (cbn [Activation.doubles Activation.ints Activation.double_vectors Activation.int_vectors Activation.scalars Activation.scalar_vectors Activation.f_ Activation.integrator_ Activation.msgs Activation.set_double Activation.set_double_vector Activation.set_scalar Activation.set_scalar_vector app]; repeat (first [rewrite update_eq | rewrite update_ne by discriminate])); reflexivity ]).
  - rewrite sequence_if_else. (cbn [Activation.doubles Activation.ints Activation.double_vectors Activation.int_vectors Activation.scalars Activation.scalar_vectors Activation.f_ Activation.integrator_ Activation.msgs Activation.set_double Activation.set_double_vector Activation.set_scalar Activation.set_scalar_vector app]; repeat (first [rewrite update_eq | rewrite update_ne by discriminate])).
    destruct (0 <? _)%float.
    + reflexivity.
    + rewrite sequence_block. cbn [app].
      do 1 (rewrite observed_assign; (cbn [Activation.doubles Activation.ints Activation.double_vectors Activation.int_vectors Activation.scalars Activation.scalar_vectors Activation.f_ Activation.integrator_ Activation.msgs Activation.set_double Activation.set_double_vector Activation.set_scalar Activation.set_scalar_vector app]; repeat (first [rewrite update_eq | rewrite update_ne by discriminate]));
   first
     [ rewrite bind_ret_l; (cbn [Activation.doubles Activation.ints Activation.double_vectors Activation.int_vectors Activation.scalars Activation.scalar_vectors Activation.f_ Activation.integrator_ Activation.msgs Activation.set_double Activation.set_double_vector Activation.set_scalar Activation.set_scalar_vector app]; repeat (first [rewrite update_eq | rewrite update_ne by discriminate]))
     | rewrite bind_assoc; apply bind_ext; intros ? ?; apply bind_ext; intros ? ?;
       (cbn [Activation.doubles Activation.ints Activation.double_vectors Activation.int_vectors Activation.scalars Activation.scalar_vectors Activation.f_ Activation.integrator_ Activation.msgs Activation.set_double Activation.set_double_vector Activation.set_scalar Activation.set_scalar_vector app]; repeat (first [rewrite update_eq | rewrite update_ne by discriminate]))
     | apply bind_ext; intros ? ?; (cbn [Activation.doubles Activation.ints Activation.double_vectors Activation.int_vectors Activation.scalars Activation.scalar_vectors Activation.f_ Activation.integrator_ Activation.msgs Activation.set_double Activation.set_double_vector Activation.set_scalar Activation.set_scalar_vector app]; repeat (first [rewrite update_eq | rewrite update_ne by discriminate])) ]).
      (rewrite observed_assign; (cbn [Activation.doubles Activation.ints Activation.double_vectors Activation.int_vectors Activation.scalars Activation.scalar_vectors Activation.f_ Activation.integrator_ Activation.msgs Activation.set_double Activation.set_double_vector Activation.set_scalar Activation.set_scalar_vector app]; repeat (first [rewrite update_eq | rewrite update_ne by discriminate]));
   first
     [ rewrite bind_ret_l, observed_return; (cbn [Activation.doubles Activation.ints Activation.double_vectors Activation.int_vectors Activation.scalars Activation.scalar_vectors Activation.f_ Activation.integrator_ Activation.msgs Activation.set_double Activation.set_double_vector Activation.set_scalar Activation.set_scalar_vector app]; repeat (first [rewrite update_eq | rewrite update_ne by discriminate])); reflexivity
     | rewrite bind_assoc; apply bind_ext; intros ? ?;
       apply bind_ret_r; intros ? ?; rewrite observed_return; (cbn [Activation.doubles Activation.ints Activation.double_vectors Activation.int_vectors Activation.scalars Activation.scalar_vectors Activation.f_ Activation.integrator_ Activation.msgs Activation.set_double Activation.set_double_vector Activation.set_scalar Activation.set_scalar_vector app]; repeat (first [rewrite update_eq | rewrite update_ne by discriminate])); reflexivity
     | apply bind_ret_r; intros ? ?; rewrite observed_return; (cbn [Activation.doubles Activation.ints Activation.double_vectors Activation.int_vectors Activation.scalars Activation.scalar_vectors Activation.f_ Activation.integrator_ Activation.msgs Activation.set_double Activation.set_double_vector Activation.set_scalar Activation.set_scalar_vector app]; repeat (first [rewrite update_eq | rewrite update_ne by discriminate])); reflexivity ]).
Qed.
End StoreSteps.

Section Statelessness.
Context {T W E : Type} `{Scalar T}.

Lemma same_objects_refl (s : Activation.store T W E) : Activation.same_objects s s.
Proof. unfold Activation.same_objects. repeat apply conj; reflexivity. Qed.

Lemma same_objects_sym (s1 s2 : Activation.store T W E) :
  Activation.same_objects s1 s2 -> Activation.same_objects s2 s1.
Proof.
  unfold Activation.same_objects. intros Hs. decompose [and] Hs.
  repeat apply conj; congruence.
Qed.

Lemma same_objects_trans (s1 s2 s3 : Activation.store T W E) :
  Activation.same_objects s1 s2 -> Activation.same_objects s2 s3 ->
  Activation.same_objects s1 s3.
Proof.
  unfold Activation.same_objects. intros H12 H23.
  decompose [and] H12. decompose [and] H23.
  repeat apply conj; congruence.
Qed.

(** Writes to a local leave the functor and the arguments alone; a write to
    [ii_], [dat], [x] or [y] would not. *)
Lemma set_double_keeps k v (s : Activation.store T W E) :
  k <> Activation.ii_ -> Activation.same_objects (Activation.set_double k v s) s.
Proof.
  intros Hk. unfold Activation.same_objects. cbn.
  rewrite update_ne by congruence. repeat apply conj; reflexivity.
Qed.

Lemma set_double_vector_keeps k v (s : Activation.store T W E) :
  k <> Activation.dat ->
  Activation.same_objects (Activation.set_double_vector k v s) s.
Proof.
  intros Hk. unfold Activation.same_objects. cbn.
  rewrite update_ne by congruence. repeat apply conj; reflexivity.
Qed.

Lemma set_scalar_keeps k v (s : Activation.store T W E) :
  Activation.same_objects (Activation.set_scalar k v s) s.
Proof. unfold Activation.same_objects. cbn. repeat apply conj; reflexivity. Qed.

Lemma set_scalar_vector_keeps k v (s : Activation.store T W E) :
  k <> Activation.x -> k <> Activation.y ->
  Activation.same_objects (Activation.set_scalar_vector k v s) s.
Proof.
  intros Hx Hy. unfold Activation.same_objects. cbn.
  rewrite !update_ne by congruence. repeat apply conj; reflexivity.
Qed.

Lemma keeps_skip : Activation.keeps_objects (Activation.skip (T:=T) (W:=W) (E:=E)).
Proof. intros s m. apply same_objects_refl. Qed.

Lemma keeps_raise (e : Activation.store T W E -> exn E) :
  Activation.keeps_objects (Activation.raise e).
Proof. intros s m. apply same_objects_refl. Qed.

Lemma keeps_return {A} (e : Activation.store T W E -> A) :
  Activation.keeps_objects (Activation.return_ e).
Proof. intros s m. apply same_objects_refl. Qed.

Lemma keeps_if_else c (s1 s2 : Activation.exec T W E unit) :
  Activation.keeps_objects s1 -> Activation.keeps_objects s2 ->
  Activation.keeps_objects (Activation.if_else c s1 s2).
Proof.
  intros H1 H2 s m. unfold Activation.if_else. destruct (c s); [apply H1 | apply H2].
Qed.

Lemma keeps_sequence {A} (s1 : Activation.exec T W E unit)
    (s2 : Activation.exec T W E A) :
  Activation.keeps_objects s1 -> Activation.keeps_objects s2 ->
  Activation.keeps_objects (Activation.sequence s1 s2).
Proof.
  intros H1 H2 s m. unfold Activation.sequence.
  specialize (H1 s m). destruct (s1 s m) as [[[[] | e |] s'] m']; try exact H1.
  exact (same_objects_trans _ _ _ (H2 s' m') H1).
Qed.

Lemma keeps_block (statements : list (Activation.exec T W E unit)) :
  Forall Activation.keeps_objects statements ->
  Activation.keeps_objects (Activation.block statements).
Proof.
  induction 1 as [|st l Hst Hl IH]; unfold Activation.block; cbn [foldr].
  - apply keeps_skip.
  - apply keeps_sequence; assumption.
Qed.

Lemma keeps_assign {V} (set : V -> Activation.store T W E -> Activation.store T W E)
    (e : Activation.store T W E -> M T W E V) :
  (forall v s, Activation.same_objects (set v s) s) ->
  Activation.keeps_objects (Activation.assign_to set e).
Proof.
  intros Hset s m. unfold Activation.assign_to.
  destruct (e s m) as [[v | e' |] m']; cbn; auto using same_objects_refl.
Qed.

(** No statement of either operator writes to a field of the functor or to
    an argument. *)
Lemma dd_operator_keeps_objects :
  Activation.keeps_objects (Activation.dd_operator (T:=T) (W:=W) (E:=E)).
Proof.
  unfold Activation.dd_operator.
  repeat first
    [ apply keeps_skip
    | apply keeps_raise
    | apply keeps_return
    | apply keeps_if_else
    | apply keeps_sequence
    | apply keeps_block; repeat constructor
    | apply keeps_assign; intros ? ?;
      first [ apply set_double_keeps; discriminate
            | apply set_double_vector_keeps; discriminate
            | apply set_scalar_keeps
            | apply set_scalar_vector_keeps; discriminate ] ].
Qed.

Lemma vd_operator_keeps_objects :
  Activation.keeps_objects (Activation.vd_operator (T:=T) (W:=W) (E:=E)).
Proof.
  unfold Activation.vd_operator.
  repeat first
    [ apply keeps_skip
    | apply keeps_raise
    | apply keeps_return
    | apply keeps_if_else
    | apply keeps_sequence
    | apply keeps_block; repeat constructor
    | apply keeps_assign; intros ? ?;
      first [ apply set_double_keeps; discriminate
            | apply set_double_vector_keeps; discriminate
            | apply set_scalar_keeps
            | apply set_scalar_vector_keeps; discriminate ] ].
Qed.

(** Stores that hold the same functor and arguments are evaluated alike. *)
Lemma dd_operator_same_objects (s1 s2 : Activation.store T W E) (m1 m2 : machine T W E) :
  Activation.same_objects s1 s2 ->
  deterministic_rhs (Activation.f_ s1) ->
  deterministic_integrator (Activation.integrator_ s1) (Activation.f_ s1) ->
  Activation.outcome_of (Activation.dd_operator s1 m1)
  = Activation.outcome_of (Activation.dd_operator s2 m2) /\
  exists new,
    calls (Activation.machine_of (Activation.dd_operator s1 m1)) = calls m1 ++ new /\
    calls (Activation.machine_of (Activation.dd_operator s2 m2)) = calls m2 ++ new.
Proof.
  intros Hsame Hf Hint.
  pose proof (dd_operator_observed s1 m1) as H1.
  pose proof (dd_operator_observed s2 m2) as H2.
  assert (Hfunctor : Activation.dd_functor s2 = Activation.dd_functor s1).
  { unfold Activation.same_objects in Hsame. decompose [and] Hsame.
    unfold Activation.dd_functor. congruence. }
  unfold Activation.same_objects in Hsame. decompose [and] Hsame.
  rewrite Hfunctor in H2.
  repeat match goal with
         | Heq : _ s1 = _ s2 |- _ => rewrite <- Heq in H2; clear Heq
         | Heq : _ s1 _ = _ s2 _ |- _ => rewrite <- Heq in H2; clear Heq
         end.
  pose proof (dd_operator_call_agree (Activation.dd_functor s1)
                (Activation.scalar_vectors s1 Activation.x)
                (Activation.scalar_vectors s1 Activation.y)
                (Activation.double_vectors s1 Activation.dat)
                (Activation.int_vectors s1 Activation.dat_int)
                (Activation.msgs s1) Hf Hint m1 m2) as Hagree.
  rewrite <- H1, <- H2 in Hagree. exact Hagree.
Qed.

Lemma vd_operator_same_objects (s1 s2 : Activation.store T W E) (m1 m2 : machine T W E) :
  Activation.same_objects s1 s2 ->
  deterministic_rhs (Activation.f_ s1) ->
  deterministic_integrator (Activation.integrator_ s1) (Activation.f_ s1) ->
  Activation.outcome_of (Activation.vd_operator s1 m1)
  = Activation.outcome_of (Activation.vd_operator s2 m2) /\
  exists new,
    calls (Activation.machine_of (Activation.vd_operator s1 m1)) = calls m1 ++ new /\
    calls (Activation.machine_of (Activation.vd_operator s2 m2)) = calls m2 ++ new.
Proof.
  intros Hsame Hf Hint.
  pose proof (vd_operator_observed s1 m1) as H1.
  pose proof (vd_operator_observed s2 m2) as H2.
  assert (Hfunctor : Activation.vd_functor s2 = Activation.vd_functor s1).
  { unfold Activation.same_objects in Hsame. decompose [and] Hsame.
    unfold Activation.vd_functor. congruence. }
  unfold Activation.same_objects in Hsame. decompose [and] Hsame.
  rewrite Hfunctor in H2.
  repeat match goal with
         | Heq : _ s1 = _ s2 |- _ => rewrite <- Heq in H2; clear Heq
         | Heq : _ s1 _ = _ s2 _ |- _ => rewrite <- Heq in H2; clear Heq
         end.
  pose proof (vd_operator_call_agree (Activation.vd_functor s1)
                (Activation.scalar_vectors s1 Activation.x)
                (Activation.scalar_vectors s1 Activation.y)
                (Activation.double_vectors s1 Activation.dat)
                (Activation.int_vectors s1 Activation.dat_int)
                (Activation.msgs s1) Hf Hint m1 m2) as Hagree.
  rewrite <- H1, <- H2 in Hagree. exact Hagree.
Qed.

(** C9: the residual evaluator is stateless and deterministic.  Each operator
    is run statement by statement on a store that names its four fields
    ([f_], [ii_], [cmt_], [integrator_]), its arguments ([x], [y], [dat],
    [dat_int], [msgs]) and its locals.  For [SS_system_dd], and separately
    for [SS_system_vd]:
    - an evaluation leaves every field and every argument as it found them,
      whether it returns, raises or stops at an out-of-range read: the
      statements write to locals only;
    - with a right-hand side and an integrator whose results do not depend
      on their own state, two evaluations on stores that hold the same
      fields and the same arguments have the same outcome and make the same
      integrator invocations, whatever the locals held at the start and
      whatever state the collaborators are in: the fields and the arguments
      are all that an evaluation depends on;
    - a second evaluation, started on the store and the machine that the
      first one left, repeats the outcome of the first and again leaves the
      fields and the arguments as they were. *)
Theorem evaluation_stateless_and_deterministic :
  ((forall (s : Activation.store T W E) (m : machine T W E),
      Activation.same_objects (Activation.store_of (Activation.dd_operator s m)) s) /\
   (forall (s1 s2 : Activation.store T W E) (m1 m2 : machine T W E),
      Activation.same_objects s1 s2 ->
      deterministic_rhs (Activation.f_ s1) ->
      deterministic_integrator (Activation.integrator_ s1) (Activation.f_ s1) ->
      let run1 := Activation.dd_operator s1 m1 in
      let run2 := Activation.dd_operator s2 m2 in
      Activation.outcome_of run1 = Activation.outcome_of run2 /\
      exists new,
        calls (Activation.machine_of run1) = calls m1 ++ new /\
        calls (Activation.machine_of run2) = calls m2 ++ new) /\
   (forall (s : Activation.store T W E) (m : machine T W E),
      deterministic_rhs (Activation.f_ s) ->
      deterministic_integrator (Activation.integrator_ s) (Activation.f_ s) ->
      let first := Activation.dd_operator s m in
      let second :=
        Activation.dd_operator (Activation.store_of first) (Activation.machine_of first) in
      Activation.outcome_of second = Activation.outcome_of first /\
      Activation.same_objects (Activation.store_of second) s)) /\
  ((forall (s : Activation.store T W E) (m : machine T W E),
      Activation.same_objects (Activation.store_of (Activation.vd_operator s m)) s) /\
   (forall (s1 s2 : Activation.store T W E) (m1 m2 : machine T W E),
      Activation.same_objects s1 s2 ->
      deterministic_rhs (Activation.f_ s1) ->
      deterministic_integrator (Activation.integrator_ s1) (Activation.f_ s1) ->
      let run1 := Activation.vd_operator s1 m1 in
      let run2 := Activation.vd_operator s2 m2 in
      Activation.outcome_of run1 = Activation.outcome_of run2 /\
      exists new,
        calls (Activation.machine_of run1) = calls m1 ++ new /\
        calls (Activation.machine_of run2) = calls m2 ++ new) /\
   (forall (s : Activation.store T W E) (m : machine T W E),
      deterministic_rhs (Activation.f_ s) ->
      deterministic_integrator (Activation.integrator_ s) (Activation.f_ s) ->
      let first := Activation.vd_operator s m in
      let second :=
        Activation.vd_operator (Activation.store_of first) (Activation.machine_of first) in
      Activation.outcome_of second = Activation.outcome_of first /\
      Activation.same_objects (Activation.store_of second) s)).
Proof.
  split.
  - split; [exact dd_operator_keeps_objects|].
    split; [exact dd_operator_same_objects|].
    intros s m Hf Hint first second.
    pose proof (dd_operator_keeps_objects s m) as Hfirst. fold first in Hfirst.
    pose proof (dd_operator_keeps_objects (Activation.store_of first)
                  (Activation.machine_of first)) as Hsecond.
    fold second in Hsecond.
    split; [|exact (same_objects_trans _ _ _ Hsecond Hfirst)].
    assert (Hobjects := Hfirst). destruct Hobjects as (Hf_ & _ & _ & Hint_ & _).
    apply (dd_operator_same_objects _ _ _ _ Hfirst).
    + rewrite Hf_. exact Hf.
    + rewrite Hf_, Hint_. exact Hint.
  - split; [exact vd_operator_keeps_objects|].
    split; [exact vd_operator_same_objects|].
    intros s m Hf Hint first second.
    pose proof (vd_operator_keeps_objects s m) as Hfirst. fold first in Hfirst.
    pose proof (vd_operator_keeps_objects (Activation.store_of first)
                  (Activation.machine_of first)) as Hsecond.
    fold second in Hsecond.
    split; [|exact (same_objects_trans _ _ _ Hsecond Hfirst)].
    assert (Hobjects := Hfirst). destruct Hobjects as (Hf_ & _ & _ & Hint_ & _).
    apply (vd_operator_same_objects _ _ _ _ Hfirst).
    + rewrite Hf_. exact Hf.
    + rewrite Hf_, Hint_. exact Hint.
Qed.
End Statelessness.

(** ** Concrete evaluations *)

Lemma rhs_double_length_preserving : length_preserving rhs_double.
Proof.
  intros t x parms rate x_i msgs w dxdt w' Hf. unfold rhs_double in Hf.
  inversion Hf; subst. apply length_imap.
Qed.

Lemma rhs_counting_deterministic : deterministic_rhs rhs_counting.
Proof. intros t x parms rate x_i msgs w w'. reflexivity. Qed.

Lemma integrator_counting_deterministic :
  deterministic_integrator integrator_counting rhs_counting.
Proof. intros y0 t0 ts theta x_r x_i w w'. reflexivity. Qed.

Lemma evaluation_stateless_and_deterministic_witness :
  let s1 := enter rhs_counting integrator_counting 10 1
              [1; 2]%float [0.5]%float [2; 0; 4]%float [] 7%float in
  let s2 := enter rhs_counting integrator_counting 10 1
              [1; 2]%float [0.5]%float [2; 0; 4]%float [] 9%float in
  let v1 := enter rhs_counting integrator_counting 10 2
              [1; 2]%float [0.5; 4]%float [3; 0]%float [] 7%float in
  let v2 := enter rhs_counting integrator_counting 10 2
              [1; 2]%float [0.5; 4]%float [3; 0]%float [] 9%float in
  (Activation.same_objects (Activation.store_of (Activation.dd_operator s1 (start 0%nat))) s1 /\
   (let run1 := Activation.dd_operator s1 (start 0%nat) in
    let run2 := Activation.dd_operator s2 (start 5%nat) in
    Activation.outcome_of run1 = Activation.outcome_of run2 /\
    exists new,
      calls (Activation.machine_of run1) = calls (start 0%nat) ++ new /\
      calls (Activation.machine_of run2) = calls (start 5%nat) ++ new) /\
   (let first := Activation.dd_operator s1 (start 0%nat) in
    let second :=
      Activation.dd_operator (Activation.store_of first) (Activation.machine_of first) in
    Activation.outcome_of second = Activation.outcome_of first /\
    Activation.same_objects (Activation.store_of second) s1)) /\
  (Activation.same_objects (Activation.store_of (Activation.vd_operator v1 (start 0%nat))) v1 /\
   (let run1 := Activation.vd_operator v1 (start 0%nat) in
    let run2 := Activation.vd_operator v2 (start 5%nat) in
    Activation.outcome_of run1 = Activation.outcome_of run2 /\
    exists new,
      calls (Activation.machine_of run1) = calls (start 0%nat) ++ new /\
      calls (Activation.machine_of run2) = calls (start 5%nat) ++ new) /\
   (let first := Activation.vd_operator v1 (start 0%nat) in
    let second :=
      Activation.vd_operator (Activation.store_of first) (Activation.machine_of first) in
    Activation.outcome_of second = Activation.outcome_of first /\
    Activation.same_objects (Activation.store_of second) v1)).
Proof.
  intros s1 s2 v1 v2.
  assert (Hs : Activation.same_objects s1 s2).
  { unfold Activation.same_objects. repeat apply conj; reflexivity. }
  assert (Hv : Activation.same_objects v1 v2).
  { unfold Activation.same_objects. repeat apply conj; reflexivity. }
  exact
    (conj
       (conj
          (proj1 (proj1 evaluation_stateless_and_deterministic) s1 (start 0%nat))
          (conj
             (proj1 (proj2 (proj1 evaluation_stateless_and_deterministic))
                s1 s2 (start 0%nat) (start 5%nat) Hs
                rhs_counting_deterministic integrator_counting_deterministic)
             (proj2 (proj2 (proj1 evaluation_stateless_and_deterministic))
                s1 (start 0%nat)
                rhs_counting_deterministic integrator_counting_deterministic)))
       (conj
          (proj1 (proj2 evaluation_stateless_and_deterministic) v1 (start 0%nat))
          (conj
             (proj1 (proj2 (proj2 evaluation_stateless_and_deterministic))
                v1 v2 (start 0%nat) (start 5%nat) Hv
                rhs_counting_deterministic integrator_counting_deterministic)
             (proj2 (proj2 (proj2 evaluation_stateless_and_deterministic))
                v1 (start 0%nat)
                rhs_counting_deterministic integrator_counting_deterministic)))).
Defined.

(** A bolus evaluation returns after exactly one integrator invocation. *)
Lemma zero_or_two_invocations_counterexample :
  let run := SS_system_dd.operator_call (dd_double 10 1)
               [1; 2]%float [0.5]%float [0; 0; 4]%float [] None (start tt) in
  returns (fst run) = true /\
  length (calls (snd run)) = 1%nat /\
  ~ (length (calls (snd run)) = 0%nat \/ length (calls (snd run)) = 2%nat).
Proof.
  vm_compute. split; [reflexivity|]. split; [reflexivity|].
  intros [Hzero | Htwo]; discriminate.
Qed.

Lemma invocations_by_regime_witness :
  let x := [1; 2]%float in
  let y := [0.5; 4]%float in
  let dat := [0; 0; 4]%float in
  let m' := snd (SS_system_dd.operator_call (dd_double 10 1) x y dat [] None (start tt)) in
  exists rate new,
    dat !! Z.to_nat (SS_system_dd.cmt_ (dd_double 10 1) - 1) = Some rate /\
    calls m' = calls (start tt) ++ new /\
    length new = invocations (regime_of rate (SS_system_dd.ii_ (dd_double 10 1))) /\
    (length new <= 2)%nat.
Proof.
  intros x y dat m'.
  exact (proj1 (invocations_by_regime x y dat [] None (start tt) m' [-14; -10]%float)
           (dd_double 10 1) eq_refl).
Defined.

(** With a right-hand side that returns no derivative, the constant-infusion
    branch returns a residual that is shorter than the candidate state. *)
Lemma residual_length_counterexample :
  let x := [1; 2]%float in
  let run := SS_system_dd.operator_call (dd_short 0 1)
               x [0.5]%float [2; 0; 10]%float [] None (start tt) in
  exists r, fst run = Returned r /\ length r <> length x.
Proof.
  exists []. split; [reflexivity | discriminate].
Qed.

Lemma residual_length_witness :
  let x := [1; 2]%float in
  let y := [0.5]%float in
  let dat := [2; 0; 10]%float in
  let r := [1; -2]%float in
  length r = length x /\
  exists rate,
    dat !! Z.to_nat (SS_system_dd.cmt_ (dd_double 0 1) - 1) = Some rate /\
    (regime_of rate (SS_system_dd.ii_ (dd_double 0 1)) <> constant ->
     length r = length x) /\
    (regime_of rate (SS_system_dd.ii_ (dd_double 0 1)) = constant ->
     exists w, SS_system_dd.f_ (dd_double 0 1) 0%float x y (take (length dat - 1) dat) []
                 None tt = (inr r, w)).
Proof.
  intros x y dat r.
  destruct (proj1 (residual_length x y dat [] None (start tt) (start tt) r)
              (dd_double 0 1) eq_refl) as [Hsize Hregime].
  exact (conj (Hsize rhs_double_length_preserving) Hregime).
Defined.

(** * Further properties of the operators *)

(** ** Empty vectors and compartments out of range *)

Section Edges.
Context {T W E : Type} `{Scalar T}.

(** X1: empty data: the dd operator raises [std::length_error] when it sizes
    [rate_v] with [dat.size() - 1]; the vd operator has no defined behaviour
    when [y] is empty ([y(y.size() - 1)]) or when [dat] is ([dat[cmt_ - 1]]).
    No collaborator is invoked in any of these cases. *)
Theorem empty_data_vectors
    (x y : list T) (dat : list float) (dat_int : list Z) (msgs : option ostream)
    (m : machine T W E) :
  (forall dd : SS_system_dd.t T W E,
     SS_system_dd.operator_call dd x y [] dat_int msgs m = (Raised length_error, m)) /\
  (forall vd : SS_system_vd.t T W E,
     SS_system_vd.operator_call vd x [] dat dat_int msgs m = (Undefined, m)) /\
  (forall vd : SS_system_vd.t T W E,
     y <> [] ->
     SS_system_vd.operator_call vd x y [] dat_int msgs m = (Undefined, m)).
Proof.
  split; [|split].
  - intros dd. rewrite dd_operator_call_eq. reflexivity.
  - intros vd. rewrite vd_operator_call_eq. reflexivity.
  - intros vd Hy. rewrite vd_operator_call_eq.
    destruct (last y) as [amt|] eqn:Hlast.
    + destruct (decide _); reflexivity.
    + apply last_None in Hlast. contradiction.
Qed.

(** X2: a dosing compartment that is not an index of [dat] ([cmt_ < 1] or
    [cmt_ > dat.size()]): both operators read [dat[cmt_ - 1]] out of range,
    before any collaborator is invoked. *)
Theorem dosing_compartment_out_of_range
    (x y : list T) (dat : list float) (dat_int : list Z) (msgs : option ostream)
    (m : machine T W E) :
  (forall dd : SS_system_dd.t T W E,
     dat <> [] ->
     SS_system_dd.cmt_ dd < 1 \/ Z.of_nat (length dat) < SS_system_dd.cmt_ dd ->
     SS_system_dd.operator_call dd x y dat dat_int msgs m = (Undefined, m)) /\
  (forall vd : SS_system_vd.t T W E,
     y <> [] ->
     SS_system_vd.cmt_ vd < 1 \/ Z.of_nat (length dat) < SS_system_vd.cmt_ vd ->
     SS_system_vd.operator_call vd x y dat dat_int msgs m = (Undefined, m)).
Proof.
  split.
  - intros dd Hdat Hcmt. rewrite dd_operator_call_eq.
    destruct (last dat) as [amt|] eqn:Hlast;
      [|apply last_None in Hlast; contradiction].
    destruct (decide _) as [Hpos|]; [|reflexivity].
    rewrite (lookup_ge_None_2 dat) by lia. reflexivity.
  - intros vd Hy Hcmt. rewrite vd_operator_call_eq.
    destruct (last y) as [amt|] eqn:Hlast;
      [|apply last_None in Hlast; contradiction].
    destruct (decide _) as [Hpos|]; [|reflexivity].
    rewrite (lookup_ge_None_2 dat) by lia. reflexivity.
Qed.

(** X3: a dosing compartment that is an index of [dat] but not of [x]: with
    [rate == 0] both operators write [x0[cmt_ - 1]] out of range, before the
    integrator is invoked.  In the dd functor [cmt_ = dat.size()] is such a
    compartment when [dat] has one entry more than [x]: the entry compared
    with zero is then the amount. *)
Theorem bolus_beyond_state
    (x y : list T) (dat : list float) (dat_int : list Z) (msgs : option ostream)
    (m : machine T W E) (rate : float) :
  (rate =? 0)%float = true ->
  (forall dd : SS_system_dd.t T W E,
     0 <= SS_system_dd.cmt_ dd - 1 ->
     dat !! Z.to_nat (SS_system_dd.cmt_ dd - 1) = Some rate ->
     Z.of_nat (length x) < SS_system_dd.cmt_ dd ->
     SS_system_dd.operator_call dd x y dat dat_int msgs m = (Undefined, m)) /\
  (forall vd : SS_system_vd.t T W E,
     y <> [] ->
     0 <= SS_system_vd.cmt_ vd - 1 ->
     dat !! Z.to_nat (SS_system_vd.cmt_ vd - 1) = Some rate ->
     Z.of_nat (length x) < SS_system_vd.cmt_ vd ->
     SS_system_vd.operator_call vd x y dat dat_int msgs m = (Undefined, m)).
Proof.
  intros Hz. split.
  - intros dd Hpos Hrate Hx. rewrite dd_operator_call_eq.
    destruct (last dat) as [amt|] eqn:Hlast.
    2: { apply last_None in Hlast. subst dat. discriminate. }
    destruct (decide _); [|lia].
    rewrite Hrate. unfold regime_of. rewrite Hz, dd_bolus_eq.
    destruct (decide _); [|lia].
    rewrite (lookup_ge_None_2 x) by lia. reflexivity.
  - intros vd Hy Hpos Hrate Hx. rewrite vd_operator_call_eq.
    destruct (last y) as [amt|] eqn:Hlast;
      [|apply last_None in Hlast; contradiction].
    destruct (decide _); [|lia].
    rewrite Hrate. unfold regime_of. rewrite Hz, vd_bolus_eq.
    destruct (decide _); [|lia].
    rewrite (lookup_ge_None_2 x) by lia. reflexivity.
Qed.
End Edges.

Lemma empty_data_vectors_witness :
  SS_system_vd.operator_call (vd_double 10 1) [1; 2]%float [0.5; 4]%float [] [] None
    (start tt)
  = (Undefined, start tt).
Proof.
  exact (proj2 (proj2 (empty_data_vectors [1; 2]%float [0.5; 4]%float [] [] None
                         (start tt)))
           (vd_double 10 1) ltac:(discriminate)).
Defined.

Lemma dosing_compartment_out_of_range_witness :
  SS_system_dd.operator_call (dd_double 10 4) [1; 2]%float [0.5]%float [0; 0; 4]%float []
    None (start tt)
  = (Undefined, start tt) /\
  SS_system_vd.operator_call (vd_double 10 0) [1; 2]%float [0.5; 4]%float [0; 0]%float []
    None (start tt)
  = (Undefined, start tt).
Proof.
  split.
  - exact (proj1 (dosing_compartment_out_of_range [1; 2]%float [0.5]%float
                    [0; 0; 4]%float [] None (start tt))
             (dd_double 10 4) ltac:(discriminate) ltac:(right; simpl; lia)).
  - exact (proj2 (dosing_compartment_out_of_range [1; 2]%float [0.5; 4]%float
                    [0; 0]%float [] None (start tt))
             (vd_double 10 0) ltac:(discriminate) ltac:(left; simpl; lia)).
Defined.

(** [dat] is two rates and an amount of zero; the dosing compartment is 3. *)
Lemma bolus_beyond_state_witness :
  SS_system_dd.operator_call (dd_double 10 3) [1; 2]%float [0.5]%float [2; 1; 0]%float []
    None (start tt)
  = (Undefined, start tt).
Proof.
  exact (proj1 (bolus_beyond_state [1; 2]%float [0.5]%float [2; 1; 0]%float [] None
                  (start tt) 0%float eq_refl)
           (dd_double 10 3) ltac:(simpl; lia) eq_refl ltac:(simpl; lia)).
Defined.

(** ** An integrator that raises, or that breaks its contract *)

Section LoopOutcomes.
Context {T W E : Type} `{Scalar T}.

Lemma for_loop_machine {S} (body : nat -> S -> M T W E S) count :
  (forall i s m, snd (body i s m) = m) ->
  forall i s m, snd (for_loop count i body s m) = m.
Proof.
  intros Hbody. induction count as [|count IH]; intros i s m; simpl; [reflexivity|].
  unfold bind. specialize (Hbody i s m).
  destruct (body i s m) as [[s1 | e |] m1]; simpl in Hbody; subst m1;
    [apply IH | reflexivity | reflexivity].
Qed.

(** Whatever its outcome, the residual loop leaves the machine as it was. *)
Lemma residual_loop_machine (x pred result : list T) (m : machine T W E) :
  snd (residual_loop x pred result m) = m.
Proof.
  apply for_loop_machine. clear. intros i s m.
  unfold bind, at_index, assign, ret, undefined.
  destruct (x !! i); [|reflexivity].
  destruct (pred !! i); [|reflexivity].
  destruct (decide _); reflexivity.
Qed.

Lemma residual_loop_from_undefined (x pred : list T) count :
  forall i result (m : machine T W E),
    (i <= length pred < i + count)%nat ->
    (i + count <= length x)%nat ->
    (i + count <= length result)%nat ->
    for_loop count i
      (fun i result =>
         xi <- at_index x i ;; pi <- at_index pred i ;; assign result i (minus xi pi))
      result m
    = (Undefined, m).
Proof.
  induction count as [|count IH]; intros i result m Hpred Hx Hres; [lia|].
  simpl.
  destruct (lookup_lt_is_Some_2 x i) as [xi Hxi]; [lia|].
  destruct (decide (i = length pred)) as [->|Hne].
  - unfold bind at 1.
    erewrite bind_returned by (apply at_index_lookup, Hxi).
    unfold bind, at_index. rewrite (lookup_ge_None_2 pred) by lia. reflexivity.
  - destruct (lookup_lt_is_Some_2 pred i) as [pi Hpi]; [lia|].
    erewrite bind_returned; cycle 1.
    { erewrite bind_returned by (apply at_index_lookup, Hxi).
      erewrite bind_returned by (apply at_index_lookup, Hpi).
      apply assign_lt. lia. }
    apply IH; [lia | lia | rewrite length_insert; lia].
Qed.

(** [pred[i]] is read out of range when [pred] has fewer entries than [x]. *)
Lemma residual_loop_undefined (x pred result : list T) (m : machine T W E) :
  length result = length x -> (length pred < length x)%nat ->
  residual_loop x pred result m = (Undefined, m).
Proof.
  intros Hres Hpred. unfold residual_loop.
  apply residual_loop_from_undefined; lia.
Qed.
End LoopOutcomes.

Section Integrator.
Context {T W E : Type} `{Scalar T}.

(** X4: a failure of the integrator in the bolus branch is the failure of the
    evaluation: neither operator catches it, and it ends the evaluation after
    that one invocation. *)
Theorem bolus_integrator_failure
    (x : list T) (dat : list float) (dat_int : list Z) (msgs : option ostream)
    (m : machine T W E) (rate : float) (e : E) (w : W) :
  (rate =? 0)%float = true ->
  (forall (dd : SS_system_dd.t T W E) (y : list T) (amt : float) (v : T),
     let k := Z.to_nat (SS_system_dd.cmt_ dd - 1) in
     let x0 := <[k := plus_double v amt]> x in
     0 <= SS_system_dd.cmt_ dd - 1 ->
     dat !! k = Some rate ->
     last dat = Some amt ->
     x !! k = Some v ->
     SS_system_dd.integrator_ dd (SS_system_dd.f_ dd) x0 0%float
       [SS_system_dd.ii_ dd] y dat dat_int (world m) = (inl e, w) ->
     SS_system_dd.operator_call dd x y dat dat_int msgs m
     = (Raised (collaborator_error e),
        {| calls := calls m ++
             [ {| call_f := SS_system_dd.f_ dd; call_y0 := x0; call_t0 := 0%float;
                  call_ts := [SS_system_dd.ii_ dd]; call_theta := y;
                  call_x_r := dat; call_x_i := dat_int |} ];
           world := w |})) /\
  (forall (vd : SS_system_vd.t T W E) (y : list T) (amt v : T),
     let k := Z.to_nat (SS_system_vd.cmt_ vd - 1) in
     let x0 := <[k := plus v amt]> x in
     let parms := take (length y - 1) y in
     0 <= SS_system_vd.cmt_ vd - 1 ->
     dat !! k = Some rate ->
     last y = Some amt ->
     x !! k = Some v ->
     SS_system_vd.integrator_ vd (SS_system_vd.f_ vd) x0 0%float
       [SS_system_vd.ii_ vd] parms dat dat_int (world m) = (inl e, w) ->
     SS_system_vd.operator_call vd x y dat dat_int msgs m
     = (Raised (collaborator_error e),
        {| calls := calls m ++
             [ {| call_f := SS_system_vd.f_ vd; call_y0 := x0; call_t0 := 0%float;
                  call_ts := [SS_system_vd.ii_ vd]; call_theta := parms;
                  call_x_r := dat; call_x_i := dat_int |} ];
           world := w |})).
Proof.
  intros Hz. split.
  - intros dd y amt v k x0 Hc Hrate Hamt Hv Hint.
    rewrite dd_operator_call_eq, Hamt.
    destruct (decide _); [|lia].
    fold k. rewrite Hrate. unfold regime_of. rewrite Hz, dd_bolus_eq.
    destruct (decide _); [|lia].
    fold k. rewrite Hv. cbv zeta. fold x0. rewrite Hint. reflexivity.
  - intros vd y amt v k x0 parms Hc Hrate Hamt Hv Hint.
    rewrite vd_operator_call_eq, Hamt.
    destruct (decide _); [|lia].
    fold k. rewrite Hrate. unfold regime_of. rewrite Hz, vd_bolus_eq.
    destruct (decide _); [|lia].
    fold k. rewrite Hv. cbv zeta. fold x0 parms. rewrite Hint. reflexivity.
Qed.

(** X5: in the truncated-infusions branch of the dd operator a failure of the
    first integration ends the evaluation, and the second integration is not
    attempted; a failure of the second ends it after two invocations. *)
Theorem truncated_integrator_failure
    (self : SS_system_dd.t T W E) (x y : list T) (dat : list float)
    (dat_int : list Z) (msgs : option ostream) (m : machine T W E)
    (rate amt : float) :
  let ii := SS_system_dd.ii_ self in
  let f := SS_system_dd.f_ self in
  let delta := (amt / rate)%float in
  let zeros := replicate (length dat) 0%float in
  let run := SS_system_dd.operator_call self x y dat dat_int msgs m in
  let c1 := {| call_f := f; call_y0 := x; call_t0 := 0%float; call_ts := [delta];
               call_theta := y; call_x_r := dat; call_x_i := dat_int |} in
  0 <= SS_system_dd.cmt_ self - 1 ->
  dat !! Z.to_nat (SS_system_dd.cmt_ self - 1) = Some rate ->
  last dat = Some amt ->
  (rate =? 0)%float = false ->
  (0 <? ii)%float = true ->
  (ii <? delta)%float = false ->
  (forall e w1,
     SS_system_dd.integrator_ self f x 0%float [delta] y dat dat_int (world m)
     = (inl e, w1) ->
     run = (Raised (collaborator_error e),
            {| calls := calls m ++ [c1]; world := w1 |})) /\
  (forall x1 rest1 w1 e w2,
     SS_system_dd.integrator_ self f x 0%float [delta] y dat dat_int (world m)
     = (inr (x1 :: rest1), w1) ->
     SS_system_dd.integrator_ self f x1 0%float [(ii - delta)%float] y zeros dat_int w1
     = (inl e, w2) ->
     run = (Raised (collaborator_error e),
            {| calls := calls m ++
                 [ c1;
                   {| call_f := f; call_y0 := x1; call_t0 := 0%float;
                      call_ts := [(ii - delta)%float]; call_theta := y;
                      call_x_r := zeros; call_x_i := dat_int |} ];
               world := w2 |})).
Proof.
  intros ii f delta zeros run c1 Hc Hrate Hamt Hnz Hii Hdelta.
  assert (Hrun : run = SS_system_dd.branch truncated self x y dat dat_int amt rate m).
  { subst run. rewrite dd_operator_call_eq, Hamt.
    destruct (decide _); [|lia].
    rewrite Hrate. unfold regime_of. rewrite Hnz. fold ii. rewrite Hii. reflexivity. }
  rewrite dd_truncated_eq in Hrun. cbv zeta in Hrun. fold ii f delta zeros in Hrun.
  rewrite Hdelta in Hrun. split.
  - intros e w1 Hfirst. rewrite Hrun, Hfirst. reflexivity.
  - intros x1 rest1 w1 e w2 Hfirst Hsecond. rewrite Hrun, Hfirst, Hsecond. reflexivity.
Qed.

(** X6: neither operator checks what the integrator returns in the bolus branch:
    when it returns no state, [integrator_(...)[0]] has no defined behaviour,
    and when the state has fewer entries than [x], [pred[i]] has none. *)
Theorem bolus_integrator_result_unchecked
    (x : list T) (dat : list float) (dat_int : list Z) (msgs : option ostream)
    (m : machine T W E) (rate : float) (states : list (list T)) (w : W) :
  (rate =? 0)%float = true ->
  (states = [] \/
   exists pred rest, states = pred :: rest /\ (length pred < length x)%nat) ->
  (forall (dd : SS_system_dd.t T W E) (y : list T) (amt : float) (v : T),
     let k := Z.to_nat (SS_system_dd.cmt_ dd - 1) in
     let x0 := <[k := plus_double v amt]> x in
     0 <= SS_system_dd.cmt_ dd - 1 ->
     dat !! k = Some rate ->
     last dat = Some amt ->
     x !! k = Some v ->
     SS_system_dd.integrator_ dd (SS_system_dd.f_ dd) x0 0%float
       [SS_system_dd.ii_ dd] y dat dat_int (world m) = (inr states, w) ->
     fst (SS_system_dd.operator_call dd x y dat dat_int msgs m) = Undefined) /\
  (forall (vd : SS_system_vd.t T W E) (y : list T) (amt v : T),
     let k := Z.to_nat (SS_system_vd.cmt_ vd - 1) in
     let x0 := <[k := plus v amt]> x in
     let parms := take (length y - 1) y in
     0 <= SS_system_vd.cmt_ vd - 1 ->
     dat !! k = Some rate ->
     last y = Some amt ->
     x !! k = Some v ->
     SS_system_vd.integrator_ vd (SS_system_vd.f_ vd) x0 0%float
       [SS_system_vd.ii_ vd] parms dat dat_int (world m) = (inr states, w) ->
     fst (SS_system_vd.operator_call vd x y dat dat_int msgs m) = Undefined).
Proof.
  intros Hz Hstates. split.
  - intros dd y amt v k x0 Hc Hrate Hamt Hv Hint.
    rewrite dd_operator_call_eq, Hamt.
    destruct (decide _); [|lia].
    fold k. rewrite Hrate. unfold regime_of. rewrite Hz, dd_bolus_eq.
    destruct (decide _); [|lia].
    fold k. rewrite Hv. cbv zeta. fold x0. rewrite Hint.
    destruct Hstates as [-> | (pred & rest & -> & Hshort)]; [reflexivity|].
    rewrite residual_loop_undefined by (rewrite ?length_replicate; lia). reflexivity.
  - intros vd y amt v k x0 parms Hc Hrate Hamt Hv Hint.
    rewrite vd_operator_call_eq, Hamt.
    destruct (decide _); [|lia].
    fold k. rewrite Hrate. unfold regime_of. rewrite Hz, vd_bolus_eq.
    destruct (decide _); [|lia].
    fold k. rewrite Hv. cbv zeta. fold x0 parms. rewrite Hint.
    destruct Hstates as [-> | (pred & rest & -> & Hshort)]; [reflexivity|].
    rewrite residual_loop_undefined by (rewrite ?length_replicate; lia). reflexivity.
Qed.

(** X7: the dd operator does not check what the integrator returns in the
    truncated-infusions branch: the behaviour
    is undefined when the first integration returns no state, and when the
    second returns no state or a state with fewer entries than [x]. *)
Theorem truncated_integrator_result_unchecked
    (self : SS_system_dd.t T W E) (x y : list T) (dat : list float)
    (dat_int : list Z) (msgs : option ostream) (m : machine T W E)
    (rate amt : float) :
  let ii := SS_system_dd.ii_ self in
  let f := SS_system_dd.f_ self in
  let delta := (amt / rate)%float in
  let zeros := replicate (length dat) 0%float in
  let run := SS_system_dd.operator_call self x y dat dat_int msgs m in
  0 <= SS_system_dd.cmt_ self - 1 ->
  dat !! Z.to_nat (SS_system_dd.cmt_ self - 1) = Some rate ->
  last dat = Some amt ->
  (rate =? 0)%float = false ->
  (0 <? ii)%float = true ->
  (ii <? delta)%float = false ->
  (forall w1,
     SS_system_dd.integrator_ self f x 0%float [delta] y dat dat_int (world m)
     = (inr [], w1) ->
     fst run = Undefined /\ length (calls (snd run)) = S (length (calls m))) /\
  (forall x1 rest1 w1 states w2,
     SS_system_dd.integrator_ self f x 0%float [delta] y dat dat_int (world m)
     = (inr (x1 :: rest1), w1) ->
     SS_system_dd.integrator_ self f x1 0%float [(ii - delta)%float] y zeros dat_int w1
     = (inr states, w2) ->
     (states = [] \/
      exists pred rest, states = pred :: rest /\ (length pred < length x)%nat) ->
     fst run = Undefined /\ length (calls (snd run)) = S (S (length (calls m)))).
Proof.
  intros ii f delta zeros run Hc Hrate Hamt Hnz Hii Hdelta.
  assert (Hrun : run = SS_system_dd.branch truncated self x y dat dat_int amt rate m).
  { subst run. rewrite dd_operator_call_eq, Hamt.
    destruct (decide _); [|lia].
    rewrite Hrate. unfold regime_of. rewrite Hnz. fold ii. rewrite Hii. reflexivity. }
  rewrite dd_truncated_eq in Hrun. cbv zeta in Hrun. fold ii f delta zeros in Hrun.
  rewrite Hdelta in Hrun. split.
  - intros w1 Hfirst. rewrite Hrun, Hfirst. simpl.
    rewrite length_app. simpl. split; [reflexivity | lia].
  - intros x1 rest1 w1 states w2 Hfirst Hsecond Hstates.
    rewrite Hrun, Hfirst, Hsecond.
    destruct Hstates as [-> | (pred & rest & -> & Hshort)].
    + simpl. rewrite length_app. simpl. split; [reflexivity | lia].
    + rewrite residual_loop_undefined by (rewrite ?length_replicate; lia).
      simpl. rewrite length_app. simpl. split; [reflexivity | lia].
Qed.
End Integrator.

Lemma bolus_integrator_failure_witness :
  let x := [1; 2]%float in
  let dat := [0; 0; 4]%float in
  SS_system_dd.operator_call (dd_failing_after 0 10 1) x [0.5]%float dat [] None
    (start 0%nat)
  = (Raised (collaborator_error "max_num_steps"%string),
     {| calls := [] ++
          [ {| call_f := rhs_counting; call_y0 := [5; 2]%float; call_t0 := 0%float;
               call_ts := [10%float]; call_theta := [0.5]%float;
               call_x_r := dat; call_x_i := [] |} ];
        world := 1%nat |}) /\
  SS_system_vd.operator_call (vd_failing_after 0 10 1) x [0.5; 4]%float dat [] None
    (start 0%nat)
  = (Raised (collaborator_error "max_num_steps"%string),
     {| calls := [] ++
          [ {| call_f := rhs_counting; call_y0 := [5; 2]%float; call_t0 := 0%float;
               call_ts := [10%float]; call_theta := [0.5]%float;
               call_x_r := dat; call_x_i := [] |} ];
        world := 1%nat |}).
Proof.
  intros x dat.
  destruct (bolus_integrator_failure x dat [] None (start (T := float) 0%nat)
              0%float "max_num_steps"%string 1%nat eq_refl) as [Hdd Hvd].
  split.
  - exact (Hdd (dd_failing_after 0 10 1) [0.5]%float 4%float 1%float
             ltac:(simpl; lia) eq_refl eq_refl eq_refl eq_refl).
  - exact (Hvd (vd_failing_after 0 10 1) [0.5; 4]%float 4%float 1%float
             ltac:(simpl; lia) eq_refl eq_refl eq_refl eq_refl).
Defined.

Lemma truncated_integrator_failure_witness :
  let x := [1; 2]%float in
  let y := [0.5]%float in
  let dat := [2; 0; 4]%float in
  let c1 := {| call_f := rhs_counting; call_y0 := x; call_t0 := 0%float;
               call_ts := [2%float]; call_theta := y;
               call_x_r := dat; call_x_i := [] |} in
  SS_system_dd.operator_call (dd_failing_after 0 10 1) x y dat [] None (start 0%nat)
  = (Raised (collaborator_error "max_num_steps"%string),
     {| calls := [] ++ [c1]; world := 1%nat |}) /\
  SS_system_dd.operator_call (dd_failing_after 1 10 1) x y dat [] None (start 0%nat)
  = (Raised (collaborator_error "max_num_steps"%string),
     {| calls := [] ++
          [ c1;
            {| call_f := rhs_counting; call_y0 := [3; 4]%float; call_t0 := 0%float;
               call_ts := [8%float]; call_theta := y;
               call_x_r := [0; 0; 0]%float; call_x_i := [] |} ];
        world := 2%nat |}).
Proof.
  intros x y dat c1.
  split.
  - exact (proj1 (truncated_integrator_failure (dd_failing_after 0 10 1) x y dat []
                    None (start 0%nat) 2%float 4%float
                    ltac:(simpl; lia) eq_refl eq_refl eq_refl eq_refl eq_refl)
             "max_num_steps"%string 1%nat eq_refl).
  - exact (proj2 (truncated_integrator_failure (dd_failing_after 1 10 1) x y dat []
                    None (start 0%nat) 2%float 4%float
                    ltac:(simpl; lia) eq_refl eq_refl eq_refl eq_refl eq_refl)
             [3; 4]%float [] 1%nat "max_num_steps"%string 2%nat eq_refl eq_refl).
Defined.

Lemma bolus_integrator_result_unchecked_witness :
  let x := [1; 2]%float in
  let dat := [0; 0; 4]%float in
  fst (SS_system_dd.operator_call (dd_with integrator_empty 10 1) x [0.5]%float dat []
         None (start tt)) = Undefined /\
  fst (SS_system_vd.operator_call (vd_with integrator_short 10 1) x [0.5; 4]%float dat
         [] None (start tt)) = Undefined.
Proof.
  intros x dat.
  assert (Hshort : ([[]] : list (list float)) = [] \/
                   exists (pred : list float) (rest : list (list float)),
                     [[]] = pred :: rest /\ (length pred < length x)%nat).
  { right. exists [], []. split; [reflexivity | simpl; lia]. }
  split.
  - exact (proj1 (bolus_integrator_result_unchecked x dat [] None
                    (start (T := float) (E := string) tt) 0%float [] tt eq_refl
                    (or_introl eq_refl))
             (dd_with integrator_empty 10 1) [0.5]%float 4%float 1%float
             ltac:(simpl; lia) eq_refl eq_refl eq_refl eq_refl).
  - exact (proj2 (bolus_integrator_result_unchecked x dat [] None
                    (start (T := float) (E := string) tt) 0%float [[]] tt eq_refl
                    Hshort)
             (vd_with integrator_short 10 1) [0.5; 4]%float 4%float 1%float
             ltac:(simpl; lia) eq_refl eq_refl eq_refl eq_refl).
Defined.

Lemma truncated_integrator_result_unchecked_witness :
  let x := [1; 2]%float in
  let y := [0.5]%float in
  let dat := [2; 0; 4]%float in
  let run_empty := SS_system_dd.operator_call (dd_with integrator_empty 10 1) x y dat []
                     None (start tt) in
  let run_short := SS_system_dd.operator_call (dd_with integrator_short 10 1) x y dat []
                     None (start tt) in
  (fst run_empty = Undefined /\ length (calls (snd run_empty)) = 1%nat) /\
  (fst run_short = Undefined /\ length (calls (snd run_short)) = 2%nat).
Proof.
  intros x y dat run_empty run_short.
  assert (Hshort : ([[]] : list (list float)) = [] \/
                   exists (pred : list float) (rest : list (list float)),
                     [[]] = pred :: rest /\ (length pred < length x)%nat).
  { right. exists [], []. split; [reflexivity | simpl; lia]. }
  split.
  - exact (proj1 (truncated_integrator_result_unchecked (dd_with integrator_empty 10 1)
                    x y dat [] None (start tt) 2%float 4%float
                    ltac:(simpl; lia) eq_refl eq_refl eq_refl eq_refl eq_refl)
             tt eq_refl).
  - exact (proj2 (truncated_integrator_result_unchecked (dd_with integrator_short 10 1)
                    x y dat [] None (start tt) 2%float 4%float
                    ltac:(simpl; lia) eq_refl eq_refl eq_refl eq_refl eq_refl)
             [] [] tt [[]] tt eq_refl eq_refl Hshort).
Defined.

(** ** What every evaluation asks of the integrator *)

Section Invocations.
Context {T W E : Type} `{Scalar T}.

(** X8: whatever the outcome of an evaluation (a result, a failure or undefined
    behaviour), the operators only add to the recorded invocations: at most
    two for the dd operator and at most one for the vd operator.  Each
    invocation passes the functor's own [f_], starts at [t0 = 0], asks for
    one output time, and passes [dat_int] unchanged and a rate vector as long
    as [dat]; the parameters are [y] (dd) or [y] without its last entry
    (vd). *)
Theorem every_invocation
    (x y : list T) (dat : list float) (dat_int : list Z) (msgs : option ostream)
    (m : machine T W E) :
  (forall dd : SS_system_dd.t T W E,
     let run := SS_system_dd.operator_call dd x y dat dat_int msgs m in
     exists new,
       calls (snd run) = calls m ++ new /\
       (length new <= 2)%nat /\
       Forall (fun c => call_f c = SS_system_dd.f_ dd /\
                        call_t0 c = 0%float /\
                        length (call_ts c) = 1%nat /\
                        call_theta c = y /\
                        length (call_x_r c) = length dat /\
                        call_x_i c = dat_int) new) /\
  (forall vd : SS_system_vd.t T W E,
     let run := SS_system_vd.operator_call vd x y dat dat_int msgs m in
     exists new,
       calls (snd run) = calls m ++ new /\
       (length new <= 1)%nat /\
       Forall (fun c => call_f c = SS_system_vd.f_ vd /\
                        call_t0 c = 0%float /\
                        call_ts c = [SS_system_vd.ii_ vd] /\
                        call_theta c = take (length y - 1) y /\
                        call_x_r c = dat /\
                        call_x_i c = dat_int) new).
Proof.
  assert (Hnone : forall P : integrator_call T W E -> Prop,
            exists new, calls m = calls m ++ new /\ (length new <= 1)%nat /\ Forall P new).
  { intros P. exists []. rewrite app_nil_r. repeat split; [simpl; lia | constructor]. }
  assert (Hloop : forall (pred result : list T) (mm : machine T W E),
            snd (residual_loop x pred result mm) = mm) by apply residual_loop_machine.
  split.
  - intros dd run. subst run. rewrite dd_operator_call_eq.
    assert (Hnone2 : forall P : integrator_call T W E -> Prop,
              exists new, calls m = calls m ++ new /\ (length new <= 2)%nat /\ Forall P new).
    { intros P. destruct (Hnone P) as (new & ? & ? & ?). exists new. repeat split; auto. }
    destruct (last dat) as [amt|]; [|apply Hnone2].
    destruct (decide _); [|apply Hnone2].
    destruct (dat !! _) as [rate|]; [|apply Hnone2].
    destruct (regime_of rate (SS_system_dd.ii_ dd)).
    + rewrite dd_bolus_eq.
      destruct (decide _); [|apply Hnone2].
      destruct (x !! _) as [v|]; [|apply Hnone2]. cbv zeta.
      destruct (SS_system_dd.integrator_ dd _ _ _ _ _ _ _ _) as [[e|[|pred rest]] w];
        try rewrite Hloop; simpl;
        (eexists; split; [reflexivity|];
         split; [simpl; lia | repeat constructor]).
    + rewrite dd_truncated_eq. cbv zeta.
      destruct (_ <? _)%float; [apply Hnone2|].
      destruct (SS_system_dd.integrator_ dd _ x _ _ _ _ _ _) as [[e|[|x1 rest1]] w1];
        try (simpl; eexists; split; [reflexivity|];
             split; [simpl; lia | repeat constructor]).
      destruct (SS_system_dd.integrator_ dd _ x1 _ _ _ _ _ _) as [[e|[|pred rest2]] w2];
        try rewrite Hloop; simpl;
        (eexists; split; [reflexivity|];
         split; [simpl; lia | repeat constructor; simpl; apply length_replicate]).
    + rewrite dd_constant_eq.
      destruct (SS_system_dd.f_ dd _ _ _ _ _ _ _) as [[e|dxdt] w]; apply Hnone2.
  - intros vd run. subst run. rewrite vd_operator_call_eq.
    destruct (last y) as [amt|]; [|apply Hnone].
    destruct (decide _); [|apply Hnone].
    destruct (dat !! _) as [rate|]; [|apply Hnone].
    destruct (regime_of rate (SS_system_vd.ii_ vd)).
    + rewrite vd_bolus_eq.
      destruct (decide _); [|apply Hnone].
      destruct (x !! _) as [v|]; [|apply Hnone]. cbv zeta.
      destruct (SS_system_vd.integrator_ vd _ _ _ _ _ _ _ _) as [[e|[|pred rest]] w];
        try rewrite Hloop; simpl;
        (eexists; split; [reflexivity|];
         split; [simpl; lia | repeat constructor]).
    + apply Hnone.
    + rewrite vd_constant_eq.
      destruct (SS_system_vd.f_ vd _ _ _ _ _ _ _) as [[e|dxdt] w]; apply Hnone.
Qed.

(** X9: a constant infusion does not depend on the amount: with [rate != 0] and
    [ii_ <= 0] the dd operator gives the same outcome whatever the last entry
    of [dat] is, when the dosing compartment is one of the rates before it;
    with [rate != 0] the vd operator gives the same outcome whatever the last
    entry of [y] is. *)
Theorem amount_unused_without_bolus
    (x : list T) (dat_int : list Z) (msgs : option ostream) (m : machine T W E)
    (rate : float) :
  (rate =? 0)%float = false ->
  (forall (dd : SS_system_dd.t T W E) (y : list T) (rates : list float)
          (amt amt' : float),
     0 <= SS_system_dd.cmt_ dd - 1 ->
     rates !! Z.to_nat (SS_system_dd.cmt_ dd - 1) = Some rate ->
     (SS_system_dd.ii_ dd <=? 0)%float = true ->
     SS_system_dd.operator_call dd x y (rates ++ [amt]) dat_int msgs m
     = SS_system_dd.operator_call dd x y (rates ++ [amt']) dat_int msgs m) /\
  (forall (vd : SS_system_vd.t T W E) (parms : list T) (dat : list float)
          (amt amt' : T),
     0 <= SS_system_vd.cmt_ vd - 1 ->
     dat !! Z.to_nat (SS_system_vd.cmt_ vd - 1) = Some rate ->
     SS_system_vd.operator_call vd x (parms ++ [amt]) dat dat_int msgs m
     = SS_system_vd.operator_call vd x (parms ++ [amt']) dat dat_int msgs m).
Proof.
  intros Hnz. split.
  - intros dd y rates amt amt' Hc Hrate Hii.
    rewrite !dd_operator_call_eq, !last_snoc.
    destruct (decide _); [|lia].
    rewrite !(lookup_app_l_Some _ _ _ _ Hrate).
    unfold regime_of. rewrite Hnz, (leb_not_gt _ _ Hii), !dd_constant_eq.
    rewrite !length_app. simpl.
    replace (length rates + 1 - 1)%nat with (length rates) by lia.
    rewrite !take_app_length. reflexivity.
  - intros vd parms dat amt amt' Hc Hrate.
    rewrite !vd_operator_call_eq, !last_snoc.
    destruct (decide _); [|lia].
    rewrite Hrate. unfold regime_of. rewrite Hnz.
    destruct (0 <? SS_system_vd.ii_ vd)%float; [reflexivity|].
    rewrite !vd_constant_eq, !length_app. simpl.
    replace (length parms + 1 - 1)%nat with (length parms) by lia.
    rewrite !take_app_length. reflexivity.
Qed.

(** X10: with the data the functors are written for, and an integrator that keeps
    its contract, an evaluation has defined behaviour: for the dd operator
    [dat] is longer than [x] and the dosing compartment is one of [x]; for the
    vd operator [y] is not empty, [dat] is at least as long as [x] and the
    dosing compartment is one of [x]. *)
Theorem defined_behaviour
    (x y : list T) (dat : list float) (dat_int : list Z) (msgs : option ostream)
    (m : machine T W E) :
  (forall dd : SS_system_dd.t T W E,
     1 <= SS_system_dd.cmt_ dd <= Z.of_nat (length x) ->
     (length x < length dat)%nat ->
     well_formed_integrator (SS_system_dd.integrator_ dd) ->
     fst (SS_system_dd.operator_call dd x y dat dat_int msgs m) <> Undefined) /\
  (forall vd : SS_system_vd.t T W E,
     y <> [] ->
     1 <= SS_system_vd.cmt_ vd <= Z.of_nat (length x) ->
     (length x <= length dat)%nat ->
     well_formed_integrator (SS_system_vd.integrator_ vd) ->
     fst (SS_system_vd.operator_call vd x y dat dat_int msgs m) <> Undefined).
Proof.
  assert (Hstate : forall (states : list (list T)) (ts : list float) (y0 : list T),
            length ts = 1%nat ->
            length states = length ts /\ Forall (fun s => length s = length y0) states ->
            exists s, states = [s] /\ length s = length y0).
  { intros states ts y0 Hts [Hlen Hall]. rewrite Hts in Hlen.
    destruct states as [|s [|s' rest]]; try discriminate.
    exists s. split; [reflexivity|]. inversion Hall; subst. assumption. }
  split.
  - intros dd Hcmt Hdat Hwf. rewrite dd_operator_call_eq.
    destruct (last dat) as [amt|] eqn:Hlast.
    2: { apply last_None in Hlast. subst dat. simpl in Hdat. lia. }
    destruct (decide _); [|lia].
    destruct (lookup_lt_is_Some_2 dat (Z.to_nat (SS_system_dd.cmt_ dd - 1)))
      as [rate Hrate]; [lia|].
    rewrite Hrate.
    destruct (regime_of rate (SS_system_dd.ii_ dd)).
    + rewrite dd_bolus_eq.
      destruct (decide _); [|lia].
      destruct (lookup_lt_is_Some_2 x (Z.to_nat (SS_system_dd.cmt_ dd - 1)))
        as [v Hv]; [lia|].
      rewrite Hv. cbv zeta.
      destruct (SS_system_dd.integrator_ dd _ _ _ _ _ _ _ _) as [[e|states] w] eqn:Hint;
        [discriminate|].
      apply Hwf in Hint. apply Hstate in Hint as (pred & -> & Hpred); [|reflexivity].
      rewrite length_insert in Hpred.
      rewrite residual_loop_returns by (rewrite ?length_replicate; lia). discriminate.
    + rewrite dd_truncated_eq. cbv zeta.
      destruct (_ <? _)%float; [discriminate|].
      destruct (SS_system_dd.integrator_ dd _ x _ _ _ _ _ _) as [[e|states1] w1] eqn:Hint1;
        [discriminate|].
      apply Hwf in Hint1. apply Hstate in Hint1 as (x1 & -> & Hx1); [|reflexivity].
      destruct (SS_system_dd.integrator_ dd _ x1 _ _ _ _ _ _) as [[e|states2] w2] eqn:Hint2;
        [discriminate|].
      apply Hwf in Hint2. apply Hstate in Hint2 as (pred & -> & Hpred); [|reflexivity].
      rewrite residual_loop_returns by (rewrite ?length_replicate; lia). discriminate.
    + rewrite dd_constant_eq.
      destruct (SS_system_dd.f_ dd _ _ _ _ _ _ _) as [[e|dxdt] w]; discriminate.
  - intros vd Hy Hcmt Hdat Hwf. rewrite vd_operator_call_eq.
    destruct (last y) as [amt|] eqn:Hlast;
      [|apply last_None in Hlast; contradiction].
    destruct (decide _); [|lia].
    destruct (lookup_lt_is_Some_2 dat (Z.to_nat (SS_system_vd.cmt_ vd - 1)))
      as [rate Hrate]; [lia|].
    rewrite Hrate.
    destruct (regime_of rate (SS_system_vd.ii_ vd)).
    + rewrite vd_bolus_eq.
      destruct (decide _); [|lia].
      destruct (lookup_lt_is_Some_2 x (Z.to_nat (SS_system_vd.cmt_ vd - 1)))
        as [v Hv]; [lia|].
      rewrite Hv. cbv zeta.
      destruct (SS_system_vd.integrator_ vd _ _ _ _ _ _ _ _) as [[e|states] w] eqn:Hint;
        [discriminate|].
      apply Hwf in Hint. apply Hstate in Hint as (pred & -> & Hpred); [|reflexivity].
      rewrite length_insert in Hpred.
      rewrite residual_loop_returns by (rewrite ?length_replicate; lia). discriminate.
    + discriminate.
    + rewrite vd_constant_eq.
      destruct (SS_system_vd.f_ vd _ _ _ _ _ _ _) as [[e|dxdt] w]; discriminate.
Qed.
End Invocations.

Lemma integrator_double_well_formed : well_formed_integrator integrator_double.
Proof.
  intros f y0 t0 ts theta x_r x_i w states w' Hint. unfold integrator_double in Hint.
  inversion Hint; subst. split; [apply length_map|].
  apply Forall_forall. intros s Hs. apply list_elem_of_In, in_map_iff in Hs.
  destruct Hs as (t1 & <- & _). apply length_map.
Qed.

Lemma amount_unused_without_bolus_witness :
  let x := [1; 2]%float in
  SS_system_dd.operator_call (dd_double 0 1) x [0.5]%float ([2; 0] ++ [10])%float []
    None (start tt)
  = SS_system_dd.operator_call (dd_double 0 1) x [0.5]%float ([2; 0] ++ [7])%float []
      None (start tt) /\
  SS_system_vd.operator_call (vd_double 0 1) x ([0.5] ++ [10])%float [2; 0]%float []
    None (start tt)
  = SS_system_vd.operator_call (vd_double 0 1) x ([0.5] ++ [7])%float [2; 0]%float []
      None (start tt).
Proof.
  intros x.
  destruct (amount_unused_without_bolus x [] None
              (start (T := float) (E := string) tt) 2%float eq_refl) as [Hdd Hvd].
  split.
  - exact (Hdd (dd_double 0 1) [0.5]%float [2; 0]%float 10%float 7%float
             ltac:(simpl; lia) eq_refl eq_refl).
  - exact (Hvd (vd_double 0 1) [0.5]%float [2; 0]%float 10%float 7%float
             ltac:(simpl; lia) eq_refl).
Defined.

Lemma defined_behaviour_witness :
  let x := [1; 2]%float in
  fst (SS_system_dd.operator_call (dd_double 10 2) x [0.5]%float [0; 3; 4]%float []
         None (start tt)) <> Undefined /\
  fst (SS_system_vd.operator_call (vd_double 10 2) x [0.5; 4]%float [0; 0]%float []
         None (start tt)) <> Undefined.
Proof.
  intros x.
  split.
  - exact (proj1 (defined_behaviour x [0.5]%float [0; 3; 4]%float [] None (start tt))
             (dd_double 10 2) ltac:(simpl; lia) ltac:(simpl; lia)
             integrator_double_well_formed).
  - exact (proj2 (defined_behaviour x [0.5; 4]%float [0; 0]%float [] None (start tt))
             (vd_double 10 2) ltac:(discriminate) ltac:(simpl; lia) ltac:(simpl; lia)
             integrator_double_well_formed).
Defined.

(** ** Rates and intervals that are not numbers *)

Lemma SFcompare_refl (a : spec_float) : a <> S754_nan -> SFcompare a a = Some Eq.
Proof.
  destruct a as [s | s | | s m e]; simpl; intros Hnan; try congruence.
  - destruct s; reflexivity.
  - rewrite Z.compare_refl, Pos.compare_cont_refl. destruct s; reflexivity.
Qed.

Lemma is_nan_Prim2SF (a : float) : is_nan a = true <-> Prim2SF a = S754_nan.
Proof.
  unfold is_nan. rewrite FloatAxioms.eqb_spec. unfold SFeqb. split.
  - intros Hneq. destruct (Prim2SF a) as [s | s | | s m e] eqn:Ha; [| |reflexivity|];
      rewrite SFcompare_refl in Hneq by discriminate; discriminate.
  - intros ->. reflexivity.
Qed.

(** Every comparison with a NaN is false. *)
Lemma nan_comparisons (a b : float) :
  is_nan a = true ->
  (a =? b)%float = false /\ (a <? b)%float = false /\ (b <? a)%float = false.
Proof.
  intros Ha. apply is_nan_Prim2SF in Ha.
  rewrite FloatAxioms.eqb_spec, !FloatAxioms.ltb_spec, Ha.
  unfold SFeqb, SFltb. simpl.
  destruct (Prim2SF b); auto.
Qed.

Lemma div_nan (a b : float) : is_nan b = true -> is_nan (a / b)%float = true.
Proof.
  intros Hb. apply is_nan_Prim2SF in Hb. apply is_nan_Prim2SF.
  rewrite FloatAxioms.div_spec, Hb. unfold SF64div, SFdiv.
  destruct (Prim2SF a); reflexivity.
Qed.

Section NotANumber.
Context {T W E : Type} `{Scalar T}.

(** X11: a rate [dat[cmt_ - 1]] that is a NaN is not a bolus ([rate == 0] is
    false); with [ii_ > 0] the infusion time [amt / rate] of the dd operator
    is a NaN too, the guard [delta > ii_] does not fire, and the integrator is
    invoked with that NaN as its output time. *)
Theorem nan_rate_passes_guard
    (self : SS_system_dd.t T W E) (x y : list T) (dat : list float)
    (dat_int : list Z) (msgs : option ostream) (m : machine T W E)
    (rate amt : float) :
  let delta := (amt / rate)%float in
  let run := SS_system_dd.operator_call self x y dat dat_int msgs m in
  0 <= SS_system_dd.cmt_ self - 1 ->
  dat !! Z.to_nat (SS_system_dd.cmt_ self - 1) = Some rate ->
  last dat = Some amt ->
  is_nan rate = true ->
  (0 <? SS_system_dd.ii_ self)%float = true ->
  is_nan delta = true /\
  (forall e, fst run = Raised e -> is_invalid_argument e = false) /\
  exists rest,
    calls (snd run)
    = calls m ++
        {| call_f := SS_system_dd.f_ self; call_y0 := x; call_t0 := 0%float;
           call_ts := [delta]; call_theta := y;
           call_x_r := dat; call_x_i := dat_int |} :: rest.
Proof.
  intros delta run Hc Hrate Hamt Hnan Hii.
  assert (Hdelta : is_nan delta = true) by (apply div_nan, Hnan).
  destruct (nan_comparisons rate 0 Hnan) as (Hnz & _ & _).
  destruct (nan_comparisons delta (SS_system_dd.ii_ self) Hdelta) as (_ & _ & Hguard).
  assert (Hrun : run = SS_system_dd.branch truncated self x y dat dat_int amt rate m).
  { subst run. rewrite dd_operator_call_eq, Hamt.
    destruct (decide _); [|lia].
    rewrite Hrate. unfold regime_of. rewrite Hnz, Hii. reflexivity. }
  rewrite dd_truncated_eq in Hrun. cbv zeta in Hrun. fold delta in Hrun.
  rewrite Hguard in Hrun.
  split; [exact Hdelta|]. rewrite Hrun.
  destruct (SS_system_dd.integrator_ self _ x _ _ _ _ _ _) as [[e1|[|x1 rest1]] w1];
    simpl.
  - split; [intros e [= <-]; reflexivity | exists []; reflexivity].
  - split; [discriminate | exists []; reflexivity].
  - destruct (SS_system_dd.integrator_ self _ x1 _ _ _ _ _ _) as [[e2|[|pred rest2]] w2];
      simpl.
    + split; [intros e [= <-]; reflexivity | eexists; reflexivity].
    + split; [discriminate | eexists; reflexivity].
    + split.
      * intros e Hraised.
        destruct (residual_loop x pred _ _) as [o m'] eqn:Hloop. simpl in Hraised.
        subst o. destruct (residual_loop_not_raised _ _ _ _ _ _ Hloop).
      * rewrite residual_loop_machine. simpl. eexists; reflexivity.
Qed.

(** X12: an interdose interval that is a NaN is neither [> 0] nor [<= 0]: with
    [rate != 0] both operators run the constant-infusion branch.  Each functor
    has its own half. *)
Theorem nan_interval_is_constant_infusion
    (x y : list T) (dat : list float) (dat_int : list Z) (msgs : option ostream)
    (m : machine T W E) :
  (forall (dd : SS_system_dd.t T W E) (rate amt : float),
     0 <= SS_system_dd.cmt_ dd - 1 ->
     dat !! Z.to_nat (SS_system_dd.cmt_ dd - 1) = Some rate ->
     last dat = Some amt ->
     (rate =? 0)%float = false ->
     is_nan (SS_system_dd.ii_ dd) = true ->
     (0 <? SS_system_dd.ii_ dd)%float = false /\
     (SS_system_dd.ii_ dd <=? 0)%float = false /\
     SS_system_dd.operator_call dd x y dat dat_int msgs m
     = SS_system_dd.branch constant dd x y dat dat_int amt rate m) /\
  (forall (vd : SS_system_vd.t T W E) (rate : float) (amt : T),
     0 <= SS_system_vd.cmt_ vd - 1 ->
     dat !! Z.to_nat (SS_system_vd.cmt_ vd - 1) = Some rate ->
     last y = Some amt ->
     (rate =? 0)%float = false ->
     is_nan (SS_system_vd.ii_ vd) = true ->
     (0 <? SS_system_vd.ii_ vd)%float = false /\
     (SS_system_vd.ii_ vd <=? 0)%float = false /\
     SS_system_vd.operator_call vd x y dat dat_int msgs m
     = SS_system_vd.branch constant vd x y dat dat_int amt m).
Proof.
  assert (Hleb : forall a b, is_nan a = true -> (a <=? b)%float = false).
  { intros a b Ha. apply is_nan_Prim2SF in Ha.
    rewrite FloatAxioms.leb_spec, Ha. reflexivity. }
  split.
  - intros dd rate amt Hc Hrate Hamt Hnz Hnan.
    destruct (nan_comparisons _ 0 Hnan) as (_ & _ & Hgt).
    split; [exact Hgt|]. split; [apply Hleb, Hnan|].
    rewrite dd_operator_call_eq, Hamt.
    destruct (decide _); [|lia].
    rewrite Hrate. unfold regime_of. rewrite Hnz, Hgt. reflexivity.
  - intros vd rate amt Hc Hrate Hamt Hnz Hnan.
    destruct (nan_comparisons _ 0 Hnan) as (_ & _ & Hgt).
    split; [exact Hgt|]. split; [apply Hleb, Hnan|].
    rewrite vd_operator_call_eq, Hamt.
    destruct (decide _); [|lia].
    rewrite Hrate. unfold regime_of. rewrite Hnz, Hgt. reflexivity.
Qed.
End NotANumber.

Lemma nan_rate_passes_guard_witness :
  let x := [1; 2]%float in
  let y := [0.5]%float in
  let dat := [nan; 0; 4]%float in
  let run := SS_system_dd.operator_call (dd_double 10 1) x y dat [] None (start tt) in
  is_nan (4 / nan)%float = true /\
  (forall e, fst run = Raised e -> is_invalid_argument e = false) /\
  exists rest,
    calls (snd run)
    = [] ++ {| call_f := rhs_double; call_y0 := x; call_t0 := 0%float;
               call_ts := [(4 / nan)%float]; call_theta := y;
               call_x_r := dat; call_x_i := [] |} :: rest.
Proof.
  intros x y dat run.
  exact (nan_rate_passes_guard (dd_double 10 1) x y dat [] None (start tt)
           nan 4%float ltac:(simpl; lia) eq_refl eq_refl eq_refl eq_refl).
Defined.

(** The dd evaluation is made with an empty [y]. *)
Lemma nan_interval_is_constant_infusion_witness :
  let x := [1; 2]%float in
  let dat := [2; 0; 4]%float in
  ((0 <? nan)%float = false /\
   (nan <=? 0)%float = false /\
   SS_system_dd.operator_call (dd_double nan 1) x [] dat [] None (start tt)
   = SS_system_dd.branch constant (dd_double nan 1) x [] dat [] 4%float 2%float
       (start tt)) /\
  ((0 <? nan)%float = false /\
   (nan <=? 0)%float = false /\
   SS_system_vd.operator_call (vd_double nan 1) x [0.5; 4]%float dat [] None (start tt)
   = SS_system_vd.branch constant (vd_double nan 1) x [0.5; 4]%float dat [] 4%float
       (start tt)).
Proof.
  intros x dat.
  split.
  - exact (proj1 (nan_interval_is_constant_infusion x [] dat [] None (start tt))
             (dd_double nan 1) 2%float 4%float
             ltac:(simpl; lia) eq_refl eq_refl eq_refl eq_refl).
  - exact (proj2 (nan_interval_is_constant_infusion x [0.5; 4]%float dat [] None
                    (start tt))
             (vd_double nan 1) 2%float 4%float
             ltac:(simpl; lia) eq_refl eq_refl eq_refl eq_refl).
Defined.
